(* ===== verification/_CoqProject ===== *)
-Q . S2P
Prelude.v
JsValue.v
JsonStringify.v
JsonParse.v
JsonLayout.v
Dispatcher.v
MemVault.v
Tools.v
Contract.v
Concurrency.v
Blocking.v
Config.v
Server.v
