(* ===== verification/Prelude.v ===== *)
(** * A verification development of vault-mcp (src/src/index.ts)

    The program is an MCP (Model Context Protocol) server written in
    TypeScript, in one file, [src/src/index.ts].  It exposes four tools
    over stdio, [vault_read], [vault_write], [vault_list] and
    [vault_delete]; each forwards one request to a HashiCorp Vault
    server through the [node-vault] client and renders the answer as a
    text content item.

    ** Parts of the program and how they interact

    At load time the module checks its configuration (lines 12-20),
    builds the Vault client (22-27), declares the catalog [TOOLS]
    (29-91), builds the MCP [Server] (93-104), registers the
    [tools/list] handler (106-111) and the [tools/call] handler
    (113-187), and calls [main()] (189-199), which connects the stdio
    transport and logs a start message.  Afterwards every [tools/call]
    request runs the handler: a [switch] on the tool name inside one
    [try], one awaited client call per tool, and a [catch] that turns any
    thrown value into a result with [isError: true].  The handler reads
    its arguments and the client's answers as untyped JavaScript values
    and renders them with [JSON.stringify(x, null, 2)].

    ** Files, Modules, and what they model

    - [Prelude.v] (this file): the [mcp_scope] and hint databases
      [mcp] / [mcp_rw], string and association-list lemmas shared by
      every component, the tactics [string_cases] and [mcp_simpl].
    - [JsValue.v], [Module JsValue]: the value type [jsval] (undefined,
      null, booleans, numbers, strings, arrays, objects as ordered
      property lists), its induction principle [jsval_rect_all],
      boolean equality [jsval_eqb] with its reflection lemma, ToString
      ([js_to_string], used by [String(error)] and [${path}]), property
      read ([get_prop] for destructuring, [get_member] for [result.data]
      with V8's TypeError), thrown values [thrown].
    - [JsonStringify.v], [Module JsonStringify]: [JSON.stringify(v,
      null, 2)] after ECMAScript ([serialize], [quote_json_string],
      [json_stringify]) and the decoder of one JSON string token
      ([unquote_chars]); modelled from the ECMAScript specification,
      since it is not code of the repository.
    - [JsonParse.v], [Module JsonParse]: the [JSON.parse] with which an
      MCP client reads the text back (outside the repository): the
      decoder [parse_value] bounded by fuel, the objects it builds
      ([build_object]), [json_parse]; [normalize] is what the round
      trip gives back, [keys_wf] and [json_data] the values it is exact
      on.
    - [JsonLayout.v], [Module JsonLayout]: the pretty-printed layout
      stated directly, as a reference printer: [layout v] lists the
      lines of [v] with their depth ([block] for a bracket pair,
      [join_items] for the commas), [render] writes them indented two
      spaces per level.
    - [Dispatcher.v], [Module Dispatcher]: the [tools/call] handler
      [call_tool] as an interaction tree (ITree) over the events
      [vaultE] (the four client calls; an answer is the settled promise,
      [inl] rejected, [inr] resolved); the [try] body [tool_body] with
      one definition per [case] ([handle_read], [handle_write],
      [handle_list], [handle_delete]) returning [thrown + call_result];
      the [catch] [catch_result].  The Vault client is the interface
      [VaultClient], a class with one operation per call on a client
      state; [run_call] interprets the handler against any instance
      with [interp_state].
    - [MemVault.v], [Module MemVault]: two instances of [VaultClient]:
      an in-memory store answering in the manner of a version 2
      key-value engine, and a scripted client answering from a list of
      outcomes.  They are test doubles for the Vault server (outside the
      repository), used for concrete runs and for the witnesses.
    - [Tools.v], [Module Tools]: [TOOLS] verbatim, [list_tools], and the
      meaning of the declared schemas ([conforms]), which the code never
      checks.
    - [Contract.v], [Module Contract]: the specification's contract for
      [call_tool] (sections 4.1, 6, 7): tool kinds, the request each
      kind prescribes ([spec_request]), the result it prescribes
      ([spec_render]), the abstraction [abs_result] of the handler's
      results, and a recording client that logs the requests it gets.
    - [Concurrency.v], [Module Concurrency]: pipelined invocations
      (specification section 5): a pool of handler itrees ([start] of a
      [call], the request's name and arguments) on one shared client;
      [next] is the step of one invocation (the client serving the
      request it awaits, with [answer], or a silent step), [cstep] lets
      any unfinished invocation step; [seq_runs] is the serial run of a
      list of calls.  The invariant [pool_inv] relates a pool to the
      serial run of the requests served so far.
    - [Blocking.v], [Module Blocking]: the no-timeout limitation of
      section 5: a client that may never settle a request ([settles]),
      answered by [handle_partial] or by [ITree.spin]; [run_partial]
      runs the handler against it.
    - [Config.v], [Module Config]: [process.env] as a stdpp [gmap],
      [VAULT_ADDR] with the [||] default, [VAULT_TOKEN], [load_config]
      (exit with status 1 or proceed with the client's options).
    - [Server.v], [Module Server]: the process as a step relation
      [step] on [proc] (phase, environment, stderr, client options,
      registered methods, client state, responses sent), in the order of
      the source: configuration, [tools/list] then [tools/call]
      registration, connect or [Fatal error], start message, serving;
      [reachable] from the start; the invariant [proc_inv].

    ** What the theorems show (claims C1-C28 of the manifest)

    - Refinement and requests (Contract): for a known tool with an
      arguments object, against every client, the handler sends the
      contract's request and answers what the contract prescribes
      ([call_tool_refines]); each call sends exactly that one request,
      and none for an unknown tool or missing arguments
      ([requests_sent]); a rejection of any tool gives an error result
      whose text is [Error executing <tool>: ] and the [message] of an
      [Error] or [String(v)] of another value ([failure_text]); a name
      is in the catalog exactly when the [switch] of [tool_body] sends a
      request for it ([catalog_matches_switch]).
    - Concurrency and blocking: every finished interleaving of
      pipelined calls is a serial run in the order the client served
      them ([concurrent_calls_serializable], by rule induction with
      [pool_inv]; it rests on [tool_body_shape]: one await per call).
      Against a client that may never answer, a call returns exactly
      when its request settles ([call_returns_iff_settles]).
    - Rendering read back: the text of a successful read, list or write
      is JSON that [JSON.parse] reads back as exactly the rendered value
      ([success_text_parses]); every result has one text item and
      [isError] absent or true ([call_result_shape]).
    - Behaviour of each branch (Dispatcher): the success of each tool
      ([read_success], [write_success], [list_success],
      [delete_success]), the read/write asymmetry of what is rendered,
      the error paths ([unknown_tool_caught], [no_arguments_no_request],
      [read_undefined_answer]); end to end on the in-memory client, a
      read after a write shows the [{ data }] envelope
      ([write_then_read]); arguments that conform to an advertised
      schema carry a string [path] ([conforms_path_string]).
    - The process (Server, Config): safety by rule induction on
      [reachable] with [proc_inv] ([served_only_with_token],
      [missing_token_exits], [stderr_by_phase]: stderr is written only
      at startup and at exit), liveness ([running_serves_call],
      [startup_reaches_running]), the configuration's two outcomes
      ([load_config_exit_iff], [load_config_proceed]).
    - [JSON.stringify] (JsonStringify, JsonParse, JsonLayout): the round
      trip of whole values through [JSON.stringify] and [JSON.parse]
      ([json_stringify_parse_roundtrip]); the serializer prints exactly
      the reference layout, every nested line indented two spaces per
      level ([json_stringify_layout], from [elem_text_layout] by
      induction on values); a string token has no control character
      ([json_stringify_string_printable]) and its length is the sum of
      the widths of the escape table, between [n + 2] and [6n + 2] for
      [n] code units ([json_stringify_string_length]).  These concern
      the ECMAScript built-in the handler calls, not code of [src/].

    ** Bounds, fuel and termination

    The value functions are structural recursions through the nested
    lists, the string decoder is structural on its input, and the
    handler is a finite interaction tree (at most one event,
    [tool_body_shape]).  [run_call_total] shows every call settles; the
    endless serving of the process is the step relation [step], whose
    progress is [running_serves_call].  The one definition with fuel is
    the JSON decoder [parse_value] (its recursion follows the nesting
    of the text): each of its five functions spends one unit per call,
    and [jsval_size v] (one per scalar, element or present member, two
    per bracket pair) is enough for the text of [v]
    ([parses_back_all]); [json_parse] gives the length of the text,
    which is at least [jsval_size v] ([jsval_size_le_length]).

    ** Modelling choices and what is not modelled

    - Strings are Stdlib [string]: 8-bit characters, read as the UTF-16
      code units 0-255 of a JavaScript string; higher code units (and so
      lone surrogates) are not represented.
    - Numbers are [Z]: integral finite numbers, printed in decimal;
      fractions, NaN and infinities are not modelled.
    - An object is the list of its own enumerable properties in
      [[OwnPropertyKeys]] order, which [JSON.stringify] follows; values
      are trees, so cyclic objects (on which [JSON.stringify] throws)
      do not arise.  Property reads see own properties only: the only
      key the code reads, [data], is not a prototype member.
    - The node-vault client (its HTTP requests, URL building, status
      handling) and the MCP SDK (JSON-RPC framing, the initialize
      handshake, request validation) are libraries the source calls;
      they are represented by the [VaultClient] interface and by the
      [step] relation's serving rules, not modelled.
    - The Vault server is outside the repository.
    - In [Concurrency.v] the client serves a request atomically, in the
      client state of that moment; sending and receiving are not
      separate steps, since an invocation does nothing between them and
      only the order in which requests are served reaches the shared
      state.
    - The [JSON.parse] model reads integral numbers only and accepts
      leading zeros; it is applied to texts [JSON.stringify] wrote,
      where neither case arises.

    ** What stays outside the model, and why

    Every statement of [src/src/index.ts] that computes or changes
    state has its definition; the lines left unmapped are imports,
    blank lines and closing braces.  What is left out is not code of
    the repository: the HTTP requests node-vault builds from
    [client_options] (endpoint, API version, token header), and the
    SDK's method dispatch with its MethodNotFound answer and schema
    validation, belong to the two libraries and are stated only
    through the [VaultClient] interface and the rules of [step]; a
    model of them would be a model of those libraries, not of this
    program.  The Vault server's own behaviour is represented only by
    the test doubles of [MemVault.v].
 *)

From Stdlib Require Import String Ascii ZArith List Bool Lia.
Import ListNotations.
Open Scope string_scope.

Declare Scope mcp_scope.
Delimit Scope mcp_scope with mcp.

Create HintDb mcp.
Create Rewrite HintDb mcp_rw.

(** ** Characters and string constants *)

(** The line feed, [\n] in the source's template literals. *)
Definition nl : string := String (ascii_of_nat 10) EmptyString.

(** ** String concatenation *)

Lemma string_app_assoc (a b c : string) : (a ++ b) ++ c = a ++ (b ++ c).
Proof. induction a as [|x a IH]; simpl; [reflexivity | now rewrite IH]. Qed.

Lemma string_app_nil_r (a : string) : a ++ "" = a.
Proof. induction a as [|x a IH]; simpl; [reflexivity | now rewrite IH]. Qed.

Lemma string_length_app (a b : string) :
  String.length (a ++ b) = String.length a + String.length b.
Proof. induction a as [|x a IH]; simpl; [reflexivity | now rewrite IH]. Qed.

#[export] Hint Rewrite string_app_assoc string_app_nil_r : mcp_rw.

(** [prefix p s] is Stdlib's boolean "p starts s". *)
Lemma prefix_app (p s : string) : String.prefix p (p ++ s) = true.
Proof.
  induction p as [|c p IH]; simpl.
  - destruct s; reflexivity.
  - destruct (ascii_dec c c) as [_|n]; [exact IH | now contradiction n].
Qed.

(** The shape of a message built as [a ++ b ++ c ++ detail]. *)
Lemma prefix_app3 (a b c d : string) : String.prefix (a ++ b ++ c) (a ++ b ++ c ++ d) = true.
Proof. rewrite <- !string_app_assoc. apply prefix_app. Qed.

#[export] Hint Resolve prefix_app prefix_app3 : mcp.

(** ** Characters of a string *)

(** [string_all P s]: every character of [s] satisfies [P]. *)
Fixpoint string_all (P : ascii -> bool) (s : string) : bool :=
  match s with
  | EmptyString => true
  | String c s' => P c && string_all P s'
  end.

Lemma string_all_app P (a b : string) :
  string_all P (a ++ b) = string_all P a && string_all P b.
Proof.
  induction a as [|c a IH]; simpl; [reflexivity|].
  now rewrite IH, andb_assoc.
Qed.

#[export] Hint Rewrite string_all_app : mcp_rw.

(** ** Association lists with string keys *)

(** First binding of [k]; a JavaScript object's own properties have
    pairwise distinct keys, so the first binding is the only one. *)
Fixpoint assoc_lookup {A} (k : string) (l : list (string * A)) : option A :=
  match l with
  | [] => None
  | (k', v) :: l' => if String.eqb k k' then Some v else assoc_lookup k l'
  end.

Lemma assoc_lookup_head {A} k (v : A) l : assoc_lookup k ((k, v) :: l) = Some v.
Proof. simpl. now rewrite String.eqb_refl. Qed.

Lemma assoc_lookup_skip {A} k k' (v : A) l :
  k <> k' -> assoc_lookup k ((k', v) :: l) = assoc_lookup k l.
Proof. intros H. simpl. now apply String.eqb_neq in H as ->. Qed.

Lemma assoc_lookup_In {A} k (v : A) l :
  assoc_lookup k l = Some v -> In (k, v) l.
Proof.
  induction l as [|[k' v'] l IH]; simpl; [discriminate|].
  destruct (String.eqb_spec k k') as [->|_]; intros H.
  - injection H as ->. now left.
  - right. now apply IH.
Qed.

Lemma assoc_lookup_None {A} k (l : list (string * A)) :
  assoc_lookup k l = None <-> ~ In k (map fst l).
Proof.
  induction l as [|[k' v'] l IH]; simpl; [tauto|].
  destruct (String.eqb_spec k k') as [->|Hne]; [split; [discriminate|tauto]|].
  rewrite IH. intuition congruence.
Qed.

#[export] Hint Rewrite @assoc_lookup_head : mcp_rw.

(** ** Tactics *)

(** Case on every string comparison in the goal; an equation between a
    variable and a literal is substituted, the impossible cases between
    distinct literals are closed. *)
Ltac string_cases :=
  repeat match goal with
  | |- context [String.eqb ?a ?b] =>
      destruct (String.eqb_spec a b); cbn iota beta; try subst; try congruence
  end.

(** Unfold concatenations to a normal form and close with reflexivity
    when the two sides agree syntactically. *)
Ltac mcp_simpl := autorewrite with mcp_rw in *; simpl in *.
