(* ===== verification/JsValue.v ===== *)
(** * JsValue: the JavaScript values the server handles

    The tool handler of [src/src/index.ts] manipulates untyped values:
    the [arguments] object of a [tools/call] request, the values the
    Vault client resolves or rejects with, and the values a [catch]
    receives.  This file gives them one type, [jsval], with the three
    operations the handler applies to them: property read ([v.key] and
    destructuring), conversion to a string ([String(v)] and template
    literals, ECMAScript ToString), and the distinction between [Error]
    instances and other thrown values.  The modelling choices (8-bit
    strings, integral numbers, objects as ordered property lists) are
    those stated in the header of [Prelude.v]. *)

From Stdlib Require Import String Ascii ZArith List Bool DecimalString Lia.
From S2P Require Import Prelude.
Import ListNotations.
Open Scope string_scope.

Module JsValue.

(** ** Values *)

(** A JavaScript value as JSON data and the handler's arguments can
    produce it.  [JObject] lists the own enumerable properties in
    [[OwnPropertyKeys]] order. *)
#[local] Set Warnings "-register-all".
Inductive jsval : Type :=
| JUndefined
| JNull
| JBool (b : bool)
| JNumber (n : Z)
| JString (s : string)
| JArray (items : list jsval)
| JObject (props : list (string * jsval)).

(** The property list of an object, as the [arguments] of a request. *)
Definition jsprops : Type := list (string * jsval).

(** ** Induction through the nested lists *)

Section jsval_induction.
Variable P : jsval -> Prop.
Hypothesis H_undef : P JUndefined.
Hypothesis H_null : P JNull.
Hypothesis H_bool : forall b, P (JBool b).
Hypothesis H_num : forall n, P (JNumber n).
Hypothesis H_str : forall s, P (JString s).
Hypothesis H_arr : forall xs, Forall P xs -> P (JArray xs).
Hypothesis H_obj : forall ps, Forall (fun kv => P (snd kv)) ps -> P (JObject ps).

Fixpoint jsval_rect_all (v : jsval) : P v :=
  match v with
  | JUndefined => H_undef
  | JNull => H_null
  | JBool b => H_bool b
  | JNumber n => H_num n
  | JString s => H_str s
  | JArray xs =>
      H_arr xs
        ((fix items (l : list jsval) : Forall P l :=
            match l with
            | [] => Forall_nil _
            | x :: l' => Forall_cons x (jsval_rect_all x) (items l')
            end) xs)
  | JObject ps =>
      H_obj ps
        ((fix fields (l : list (string * jsval)) :
             Forall (fun kv => P (snd kv)) l :=
            match l with
            | [] => Forall_nil _
            | kv :: l' => Forall_cons kv (jsval_rect_all (snd kv)) (fields l')
            end) ps)
  end.
End jsval_induction.

(** ** Decidable equality *)

Fixpoint jsval_eqb (v w : jsval) : bool :=
  match v, w with
  | JUndefined, JUndefined | JNull, JNull => true
  | JBool a, JBool b => Bool.eqb a b
  | JNumber a, JNumber b => Z.eqb a b
  | JString a, JString b => String.eqb a b
  | JArray xs, JArray ys =>
      (fix items (l1 l2 : list jsval) : bool :=
         match l1, l2 with
         | [], [] => true
         | x :: l1', y :: l2' => jsval_eqb x y && items l1' l2'
         | _, _ => false
         end) xs ys
  | JObject ps, JObject qs =>
      (fix fields (l1 l2 : list (string * jsval)) : bool :=
         match l1, l2 with
         | [], [] => true
         | (k1, x) :: l1', (k2, y) :: l2' =>
             String.eqb k1 k2 && jsval_eqb x y && fields l1' l2'
         | _, _ => false
         end) ps qs
  | _, _ => false
  end.

Lemma jsval_eqb_eq (v w : jsval) : jsval_eqb v w = true <-> v = w.
Proof.
  revert w. induction v as [| | b | n | s | xs IH | ps IH] using jsval_rect_all;
    intros [| | b' | n' | s' | ys | qs]; simpl;
    try (split; congruence).
  - rewrite Bool.eqb_true_iff. split; congruence.
  - rewrite Z.eqb_eq. split; congruence.
  - rewrite String.eqb_eq. split; congruence.
  - revert ys. induction IH as [|x xs Hx _ IHxs]; intros [|y ys];
      try (split; congruence).
    rewrite andb_true_iff, Hx, IHxs. split; [intros [-> [=->]]|intros [=-> ->]]; auto.
  - revert qs. induction IH as [|[k x] ps Hx _ IHps]; intros [|[k' y] qs];
      try (split; congruence). simpl in Hx.
    rewrite !andb_true_iff, String.eqb_eq, Hx, IHps.
    split; [intros [[-> ->] [=->]]|intros [=-> -> ->]]; auto.
Qed.

Definition jsval_eq_dec (v w : jsval) : {v = w} + {v <> w}.
Proof.
  destruct (jsval_eqb v w) eqn:E; [left | right].
  - now apply jsval_eqb_eq.
  - intros H. apply jsval_eqb_eq in H. congruence.
Defined.

(** ** Distinct keys, the shape of an object's own property list *)

Fixpoint keys_distinct (ks : list string) : bool :=
  match ks with
  | [] => true
  | k :: ks' => negb (existsb (String.eqb k) ks') && keys_distinct ks'
  end.

(** ** ToString *)

(** Number::toString on an integral number: its decimal notation,
    with a leading [-] when negative. *)
Definition number_to_string (n : Z) : string :=
  NilZero.string_of_int (Z.to_int n).

(** ECMAScript ToString, the conversion of [String(v)] and of a
    [${v}] substitution in a template literal.  An array converts
    through Array.prototype.join with separator [","], where
    [undefined] and [null] elements become the empty string; a plain
    object converts through Object.prototype.toString. *)
Fixpoint js_to_string (v : jsval) : string :=
  match v with
  | JUndefined => "undefined"
  | JNull => "null"
  | JBool true => "true"
  | JBool false => "false"
  | JNumber n => number_to_string n
  | JString s => s
  | JArray xs =>
      String.concat ","
        (map (fun x => match x with
                       | JUndefined | JNull => ""
                       | _ => js_to_string x
                       end) xs)
  | JObject _ => "[object Object]"
  end.

(** ** Thrown values *)

(** What a [throw] or a rejected promise carries: an instance of
    [Error] (or of a subclass such as [TypeError]), with its [name] and
    [message], or any other value. *)
Inductive thrown : Type :=
| ErrorObject (name message : string)
| ThrownValue (v : jsval).

Definition type_error (message : string) : thrown := ErrorObject "TypeError" message.

(** ** Property read *)

(** [get_prop ps k]: the value of own property [k], [undefined] when
    there is none. *)
Definition get_prop (ps : jsprops) (k : string) : jsval :=
  match assoc_lookup k ps with
  | Some v => v
  | None => JUndefined
  end.

(** [v.key], as V8 evaluates it: a TypeError on [undefined] and [null];
    the own property on an object.  On the other values the result is
    [undefined]: prototype members (methods, [length], indices of
    arrays and strings) are not modelled, and the only key the server
    reads this way, [data], is none of them. *)
Definition get_member (v : jsval) (key : string) : thrown + jsval :=
  match v with
  | JUndefined =>
      inl (type_error ("Cannot read properties of undefined (reading '" ++ key ++ "')"))
  | JNull =>
      inl (type_error ("Cannot read properties of null (reading '" ++ key ++ "')"))
  | JObject ps => inr (get_prop ps key)
  | _ => inr JUndefined
  end.

(** ** Lemmas *)

Lemma get_prop_head k v ps : get_prop ((k, v) :: ps) k = v.
Proof. unfold get_prop. now rewrite assoc_lookup_head. Qed.

Lemma get_prop_skip k k' v ps : k <> k' -> get_prop ((k', v) :: ps) k = get_prop ps k.
Proof. intros H. unfold get_prop. now rewrite assoc_lookup_skip. Qed.

Lemma get_member_object ps key : get_member (JObject ps) key = inr (get_prop ps key).
Proof. reflexivity. Qed.

Lemma get_member_error v key e :
  get_member v key = inl e -> v = JUndefined \/ v = JNull.
Proof. destruct v; simpl; try discriminate; auto. Qed.

#[export] Hint Rewrite get_prop_head get_member_object : mcp_rw.

End JsValue.
