(* ===== verification/JsonStringify.v ===== *)
(** * JsonStringify: [JSON.stringify(v, null, 2)]

    Every successful tool call of [src/src/index.ts] renders its answer
    with [JSON.stringify(x, null, 2)] (lines 126, 140 and 153).  This
    file models that call after ECMAScript's JSON.stringify: no
    replacer, a gap of two spaces, SerializeJSONProperty for the value
    and QuoteJSONString for strings and keys.  It is not code of the
    repository; it is modelled from the ECMAScript specification (the
    manifest marks it so).  The values have no [toJSON] method: they
    are JSON data and the object literal [{ data }].

    It also holds the decoding of the characters of one JSON string
    token ([unquote_chars]), the part of JSON.parse that reads what
    QuoteJSONString wrote, and the lemma that it reads them back
    ([unquote_quote_chars]), on which the round trip of [JsonParse.v]
    rests. *)

From Stdlib Require Import String Ascii ZArith List Bool Lia.
From S2P Require Import Prelude JsValue.
Import ListNotations.
Import JsValue.
Open Scope string_scope.

Module JsonStringify.

(** ** QuoteJSONString *)

(** The double quote, written without a doubled quote in a literal. *)
Definition dq_char : ascii := ascii_of_nat 34.
Definition dq : string := String dq_char EmptyString.
Definition backslash : ascii := ascii_of_nat 92.

Definition hex_digit (n : nat) : ascii :=
  if Nat.ltb n 10 then ascii_of_nat (48 + n) else ascii_of_nat (87 + n).

(** UnicodeEscape(C): [\u] and four lowercase hexadecimal digits; the
    code units of the model are below 256, so the first two are 0. *)
Definition unicode_escape (c : ascii) : string :=
  let n := nat_of_ascii c in
  "\u00" ++ String (hex_digit (Nat.div n 16)) (String (hex_digit (Nat.modulo n 16)) EmptyString).

(** One code unit: the escapes of the ECMAScript table (backspace, tab,
    line feed, form feed, carriage return, quote, backslash), a
    UnicodeEscape for the other code units below 0x20, the unit
    itself otherwise. *)
Definition quote_char (c : ascii) : string :=
  match nat_of_ascii c with
  | 8 => "\b"
  | 9 => "\t"
  | 10 => "\n"
  | 12 => "\f"
  | 13 => "\r"
  | 34 => String backslash dq
  | 92 => "\\"
  | n => if Nat.ltb n 32 then unicode_escape c else String c EmptyString
  end.

Fixpoint quote_chars (s : string) : string :=
  match s with
  | EmptyString => EmptyString
  | String c s' => quote_char c ++ quote_chars s'
  end.

Definition quote_json_string (s : string) : string := dq ++ quote_chars s ++ dq.

(** ** SerializeJSONProperty with gap "  " *)

Definition gap : string := "  ".

(** The closing step of SerializeJSONObject and SerializeJSONArray for
    a non-empty gap: no member gives [op cl]; otherwise each member on
    its own line, indented one gap deeper than [stepback]. *)
Definition wrap_members (op cl stepback : string) (partial : list string) : string :=
  match partial with
  | [] => op ++ cl
  | _ :: _ =>
      let ind := stepback ++ gap in
      op ++ nl ++ ind ++ String.concat ("," ++ nl ++ ind) partial ++ nl ++ stepback ++ cl
  end.

(** [serialize indent v]: SerializeJSONProperty on a holder whose
    property is [v], in a state whose indent is [indent].  [None] is
    the result [undefined]: an array element that serializes to
    [undefined] is written [null], an object member with such a value
    is left out. *)
Fixpoint serialize (indent : string) (v : jsval) : option string :=
  match v with
  | JUndefined => None
  | JNull => Some "null"
  | JBool true => Some "true"
  | JBool false => Some "false"
  | JNumber n => Some (number_to_string n)
  | JString s => Some (quote_json_string s)
  | JArray xs =>
      Some (wrap_members "[" "]" indent
              (map (fun x => match serialize (indent ++ gap) x with
                             | Some s => s
                             | None => "null"
                             end) xs))
  | JObject ps =>
      Some (wrap_members "{" "}" indent
              (flat_map (fun kv => match serialize (indent ++ gap) (snd kv) with
                                   | Some s => [quote_json_string (fst kv) ++ ": " ++ s]
                                   | None => []
                                   end) ps))
  end.

(** [JSON.stringify(v, null, 2)]: [None] when the result is
    [undefined]. *)
Definition json_stringify (v : jsval) : option string := serialize "" v.

(** ** Decoding a JSON string token *)

Definition hex_value (c : ascii) : option nat :=
  let n := nat_of_ascii c in
  if Nat.leb 48 n && Nat.leb n 57 then Some (n - 48)
  else if Nat.leb 97 n && Nat.leb n 102 then Some (n - 87)
  else if Nat.leb 65 n && Nat.leb n 70 then Some (n - 55)
  else None.

(** A [\u] escape with four hexadecimal digits, for the code units the
    model represents (below 256). *)
Definition decode_u (h1 h2 h3 h4 : ascii) : option ascii :=
  match hex_value h1, hex_value h2, hex_value h3, hex_value h4 with
  | Some 0, Some 0, Some a, Some b => Some (ascii_of_nat (16 * a + b))
  | _, _, _, _ => None
  end.

Definition simple_escape (e : ascii) : option ascii :=
  match nat_of_ascii e with
  | 98 => Some (ascii_of_nat 8)
  | 116 => Some (ascii_of_nat 9)
  | 110 => Some (ascii_of_nat 10)
  | 102 => Some (ascii_of_nat 12)
  | 114 => Some (ascii_of_nat 13)
  | 34 => Some dq_char
  | 92 => Some backslash
  | 47 => Some (ascii_of_nat 47)
  | _ => None
  end.

(** [unquote_chars s]: read the characters of a string token up to its
    closing quote; the result is the decoded string and what follows
    the quote.  A raw control character is a syntax error, as in
    JSON.parse. *)
Fixpoint unquote_chars (s : string) : option (string * string) :=
  match s with
  | EmptyString => None
  | String c s' =>
      if Ascii.eqb c dq_char then Some (EmptyString, s')
      else if Ascii.eqb c backslash then
        match s' with
        | String e rest =>
            if Ascii.eqb e "u"%char then
              match rest with
              | String h1 (String h2 (String h3 (String h4 rest'))) =>
                  match decode_u h1 h2 h3 h4, unquote_chars rest' with
                  | Some d, Some (u, r) => Some (String d u, r)
                  | _, _ => None
                  end
              | _ => None
              end
            else
              match simple_escape e, unquote_chars rest with
              | Some d, Some (u, r) => Some (String d u, r)
              | _, _ => None
              end
        | EmptyString => None
        end
      else if Nat.ltb (nat_of_ascii c) 32 then None
      else
        match unquote_chars s' with
        | Some (u, r) => Some (String c u, r)
        | None => None
        end
  end.

(** ** Properties *)

(** One quoted code unit decodes back to itself, whatever follows. *)
Lemma unquote_quote_char (c : ascii) (t : string) :
  unquote_chars (quote_char c ++ t) =
  match unquote_chars t with
  | Some (u, r) => Some (String c u, r)
  | None => None
  end.
Proof. destruct c as [[] [] [] [] [] [] [] []]; reflexivity. Qed.

(** No code unit is quoted into a control character. *)
Lemma quote_char_printable (c : ascii) :
  string_all (fun d => Nat.leb 32 (nat_of_ascii d)) (quote_char c) = true.
Proof. destruct c as [[] [] [] [] [] [] [] []]; reflexivity. Qed.

Lemma unquote_quote_chars (s rest : string) :
  unquote_chars (quote_chars s ++ dq ++ rest) = Some (s, rest).
Proof.
  induction s as [|c s IH]; [reflexivity|].
  simpl quote_chars. rewrite string_app_assoc, unquote_quote_char, IH.
  reflexivity.
Qed.

(** Only [undefined] serializes to [undefined], at any depth. *)
Lemma serialize_None (indent : string) (v : jsval) :
  serialize indent v = None <-> v = JUndefined.
Proof. destruct v as [| | [] | | | |]; simpl; split; congruence. Qed.

(** C25: [JSON.stringify] of a string never emits a control character (a
    code unit below 0x20): line feeds and the other control units of the
    string are escaped, so the text is a single line. *)
Theorem json_stringify_string_printable (s : string) :
  exists t, json_stringify (JString s) = Some t /\
            string_all (fun d => Nat.leb 32 (nat_of_ascii d)) t = true.
Proof.
  exists (quote_json_string s). split; [reflexivity|].
  unfold quote_json_string. rewrite !string_all_app. simpl.
  induction s as [|c s IH]; [reflexivity|].
  simpl. rewrite string_all_app, quote_char_printable. exact IH.
Qed.

End JsonStringify.
