(* ===== verification/JsonParse.v ===== *)
(** * JsonParse: reading back what [JSON.stringify] wrote

    The text of a successful tool result is [JSON.stringify(x, null, 2)]
    (src/src/index.ts lines 126, 140, 153); an MCP client reads it with
    [JSON.parse].  This file models JSON.parse on the values of the
    model, after ECMAScript's JSON.parse; it is the reader's code, not
    the repository's, so the manifest maps none of it: a decoder
    [parse_value] bounded by fuel, and the object it builds
    ([build_object], where a repeated key keeps its first position and
    takes its last value, as CreateDataProperty does).  The theorems
    are the round trip of whole values through [json_stringify] and the
    fuel that suffices. *)

From Stdlib Require Import String Ascii ZArith List Bool Lia DecimalString DecimalZ.
From S2P Require Import Prelude JsValue JsonStringify.
Import ListNotations.
Import JsValue JsonStringify.
Open Scope string_scope.

Module JsonParse.

(** ** Lexical classes *)

(** JSON whitespace: space, tab, line feed, carriage return. *)
Definition is_ws (c : ascii) : bool :=
  let n := nat_of_ascii c in
  Nat.eqb n 32 || Nat.eqb n 9 || Nat.eqb n 10 || Nat.eqb n 13.

Fixpoint skip_ws (s : string) : string :=
  match s with
  | String c s' => if is_ws c then skip_ws s' else s
  | EmptyString => EmptyString
  end.

Definition is_digit (c : ascii) : bool :=
  let n := nat_of_ascii c in Nat.leb 48 n && Nat.leb n 57.

(** The characters an integral number token is made of. *)
Definition is_num_char (c : ascii) : bool := Ascii.eqb c "-"%char || is_digit c.

(** ** Tokens *)

(** The longest prefix of number characters, and what follows it. *)
Fixpoint take_num (s : string) : string * string :=
  match s with
  | String c s' =>
      if is_num_char c then let (t, r) := take_num s' in (String c t, r)
      else (EmptyString, s)
  | EmptyString => (EmptyString, EmptyString)
  end.

(** An integral number: an optional [-] and decimal digits.  Leading
    zeros are accepted (JSON.parse refuses them); fractions and
    exponents are outside the model's numbers. *)
Definition parse_number (s : string) : option (Z * string) :=
  let (tok, rest) := take_num s in
  match NilZero.int_of_string tok with
  | Some d => Some (Z.of_int d, rest)
  | None => None
  end.

(** [strip_prefix p s]: the rest of [s] after the literal [p]. *)
Fixpoint strip_prefix (p s : string) : option string :=
  match p, s with
  | EmptyString, _ => Some s
  | String a p', String b s' => if Ascii.eqb a b then strip_prefix p' s' else None
  | String _ _, EmptyString => None
  end.

(** ** Objects as JSON.parse builds them *)

(** CreateDataProperty on an ordinary object: an existing key keeps its
    position and takes the new value; a new key goes last. *)
Fixpoint set_prop (ps : jsprops) (k : string) (v : jsval) : jsprops :=
  match ps with
  | [] => [(k, v)]
  | (k', w) :: ps' => if String.eqb k k' then (k, v) :: ps' else (k', w) :: set_prop ps' k v
  end.

Definition build_object (pairs : jsprops) : jsprops :=
  fold_left (fun acc kv => set_prop acc (fst kv) (snd kv)) pairs [].

(** ** What a round trip gives back *)

(** Whether a value serializes to a JSON text ([JSON.stringify] gives
    [undefined] for [undefined] only). *)
Definition defined (v : jsval) : bool :=
  match v with JUndefined => false | _ => true end.

(** The value [JSON.parse] returns for the text [JSON.stringify] wrote:
    [undefined] array elements come back as [null], object members
    whose value is [undefined] are gone. *)
Fixpoint normalize (v : jsval) : jsval :=
  match v with
  | JArray xs =>
      JArray (map (fun x => if defined x then normalize x else JNull) xs)
  | JObject ps =>
      JObject (flat_map (fun kv => if defined (snd kv) then [(fst kv, normalize (snd kv))]
                                   else []) ps)
  | _ => v
  end.

(** Every object, at any depth, has pairwise distinct keys, as the own
    properties of a JavaScript object do. *)
Fixpoint keys_wf (v : jsval) : bool :=
  match v with
  | JArray xs => forallb keys_wf xs
  | JObject ps => keys_distinct (map fst ps) && forallb (fun kv => keys_wf (snd kv)) ps
  | _ => true
  end.

(** JSON data: no [undefined] at any depth, as in every value that
    came out of [JSON.parse] itself (the Vault client's answers). *)
Fixpoint json_data (v : jsval) : bool :=
  match v with
  | JUndefined => false
  | JArray xs => forallb json_data xs
  | JObject ps => forallb (fun kv => json_data (snd kv)) ps
  | _ => true
  end.

(** The fuel [parse_value] needs: one per token, one per element or
    present member, two per bracket pair. *)
Fixpoint jsval_size (v : jsval) : nat :=
  match v with
  | JArray xs => 2 + list_sum (map (fun x => S (jsval_size x)) xs)
  | JObject ps =>
      2 + list_sum (map (fun kv => if defined (snd kv) then S (jsval_size (snd kv)) else 0) ps)
  | _ => 1
  end.

(** The text after a value may start with anything but a number
    character (which would extend a number token). *)
Definition delimited (rest : string) : bool :=
  match rest with
  | String c _ => negb (is_num_char c)
  | EmptyString => true
  end.

(** ** Lexical lemmas *)

Lemma skip_ws_app (w s : string) :
  string_all is_ws w = true -> skip_ws (w ++ s) = skip_ws s.
Proof.
  induction w as [|c w IH]; simpl; [reflexivity|].
  intros [-> Hw]%andb_true_iff. exact (IH Hw).
Qed.

Lemma gap_ws : string_all is_ws gap = true.
Proof. reflexivity. Qed.

Lemma nl_ws : string_all is_ws nl = true.
Proof. reflexivity. Qed.

#[export] Hint Resolve gap_ws nl_ws : mcp.

(** The first character of a number is none of the characters the
    decoder dispatches on. *)
Lemma num_char_dispatch (c : ascii) :
  is_num_char c = true ->
  is_ws c = false /\ Ascii.eqb c "n"%char = false /\ Ascii.eqb c "t"%char = false /\
  Ascii.eqb c "f"%char = false /\ Ascii.eqb c dq_char = false /\
  Ascii.eqb c "["%char = false /\ Ascii.eqb c "{"%char = false /\
  Ascii.eqb c "]"%char = false /\ Ascii.eqb c "}"%char = false.
Proof.
  destruct c as [[] [] [] [] [] [] [] []]; vm_compute; intros H;
    solve [discriminate H | repeat split].
Qed.

Lemma strip_prefix_app (p s : string) : strip_prefix p (p ++ s) = Some s.
Proof. induction p as [|c p IH]; simpl; [reflexivity|]. now rewrite Ascii.eqb_refl. Qed.

Lemma take_num_app (t rest : string) :
  string_all is_num_char t = true -> delimited rest = true ->
  take_num (t ++ rest) = (t, rest).
Proof.
  induction t as [|c t IH]; simpl.
  - destruct rest as [|c r]; simpl; [reflexivity|].
    intros _ H. apply negb_true_iff in H. now rewrite H.
  - intros [-> Ht]%andb_true_iff Hr. now rewrite (IH Ht Hr).
Qed.

(** ** Numbers *)

Lemma string_of_uint_num (u : Decimal.uint) :
  string_all is_num_char (NilEmpty.string_of_uint u) = true.
Proof. induction u; simpl; auto. Qed.

Lemma number_to_string_num (n : Z) : string_all is_num_char (number_to_string n) = true.
Proof.
  unfold number_to_string, NilZero.string_of_int, NilZero.string_of_uint.
  destruct (Z.to_int n) as [[]|[]]; simpl; try reflexivity; apply string_of_uint_num.
Qed.

Lemma number_to_string_cons (n : Z) : exists c t, number_to_string n = String c t.
Proof.
  unfold number_to_string, NilZero.string_of_int, NilZero.string_of_uint.
  destruct (Z.to_int n) as [[]|[]]; simpl; eauto.
Qed.

(** Z.to_int never gives the empty digit string. *)
Lemma to_int_not_nil (n : Z) :
  Z.to_int n <> Decimal.Pos Decimal.Nil /\ Z.to_int n <> Decimal.Neg Decimal.Nil.
Proof.
  split; intros H; pose proof (DecimalZ.of_to n) as E; rewrite H in E;
    vm_compute in E; subst n; vm_compute in H; discriminate H.
Qed.

(** The number token [JSON.stringify] writes reads back as the number. *)
Lemma parse_number_app (n : Z) (rest : string) :
  delimited rest = true -> parse_number (number_to_string n ++ rest) = Some (n, rest).
Proof.
  intros Hr. unfold parse_number.
  rewrite (take_num_app _ _ (number_to_string_num n) Hr).
  destruct (to_int_not_nil n) as [H1 H2].
  unfold number_to_string. rewrite (NilZero.isi _ H1 H2), DecimalZ.of_to.
  reflexivity.
Qed.

(** ** The decoder *)

(** [parse_value fuel s]: one JSON value after optional whitespace, and
    the text after it.  Each call of the five mutually recursive
    functions spends one unit of fuel; [None] is a syntax error or fuel
    running out.  [parse_elements] follows a [[], [parse_items] reads
    [value (, value)* ]]; [parse_members] and [parse_pairs] do the same
    for objects. *)
Fixpoint parse_value (fuel : nat) (s : string) {struct fuel} : option (jsval * string) :=
  match fuel with
  | O => None
  | S f =>
      match skip_ws s with
      | EmptyString => None
      | String c s' =>
          if Ascii.eqb c "n"%char then option_map (fun r => (JNull, r)) (strip_prefix "ull" s')
          else if Ascii.eqb c "t"%char then option_map (fun r => (JBool true, r)) (strip_prefix "rue" s')
          else if Ascii.eqb c "f"%char then option_map (fun r => (JBool false, r)) (strip_prefix "alse" s')
          else if Ascii.eqb c dq_char then
            option_map (fun ur => (JString (fst ur), snd ur)) (unquote_chars s')
          else if Ascii.eqb c "["%char then
            option_map (fun xr => (JArray (fst xr), snd xr)) (parse_elements f s')
          else if Ascii.eqb c "{"%char then
            option_map (fun pr => (JObject (build_object (fst pr)), snd pr)) (parse_members f s')
          else if is_num_char c then
            option_map (fun nr => (JNumber (fst nr), snd nr)) (parse_number (String c s'))
          else None
      end
  end
with parse_elements (fuel : nat) (s : string) {struct fuel} : option (list jsval * string) :=
  match fuel with
  | O => None
  | S f =>
      match skip_ws s with
      | String c r => if Ascii.eqb c "]"%char then Some ([], r) else parse_items f s
      | EmptyString => None
      end
  end
with parse_items (fuel : nat) (s : string) {struct fuel} : option (list jsval * string) :=
  match fuel with
  | O => None
  | S f =>
      match parse_value f s with
      | Some (v, r) =>
          match skip_ws r with
          | String c r' =>
              if Ascii.eqb c ","%char then
                option_map (fun xr => (v :: fst xr, snd xr)) (parse_items f r')
              else if Ascii.eqb c "]"%char then Some ([v], r')
              else None
          | EmptyString => None
          end
      | None => None
      end
  end
with parse_members (fuel : nat) (s : string) {struct fuel} : option (jsprops * string) :=
  match fuel with
  | O => None
  | S f =>
      match skip_ws s with
      | String c r => if Ascii.eqb c "}"%char then Some ([], r) else parse_pairs f s
      | EmptyString => None
      end
  end
with parse_pairs (fuel : nat) (s : string) {struct fuel} : option (jsprops * string) :=
  match fuel with
  | O => None
  | S f =>
      match skip_ws s with
      | String c s1 =>
          if Ascii.eqb c dq_char then
            match unquote_chars s1 with
            | Some (k, r1) =>
                match skip_ws r1 with
                | String c2 r2 =>
                    if Ascii.eqb c2 ":"%char then
                      match parse_value f r2 with
                      | Some (v, r3) =>
                          match skip_ws r3 with
                          | String c3 r4 =>
                              if Ascii.eqb c3 ","%char then
                                option_map (fun pr => ((k, v) :: fst pr, snd pr)) (parse_pairs f r4)
                              else if Ascii.eqb c3 "}"%char then Some ([(k, v)], r4)
                              else None
                          | EmptyString => None
                          end
                      | None => None
                      end
                    else None
                | EmptyString => None
                end
            | None => None
            end
          else None
      | EmptyString => None
      end
  end.

(** [JSON.parse(text)]: one value, then only whitespace.  The fuel is
    the length of the text, which [jsval_size_le_length] shows enough
    for every text [JSON.stringify] writes. *)
Definition json_parse (text : string) : option jsval :=
  match parse_value (String.length text) text with
  | Some (v, r) => match skip_ws r with EmptyString => Some v | _ => None end
  | None => None
  end.

(** ** One step of the decoder *)

Lemma skip_ws_cons (c : ascii) (s : string) :
  is_ws c = false -> skip_ws (String c s) = String c s.
Proof. intros H. simpl. now rewrite H. Qed.

Lemma parse_value_ws (f : nat) (w s : string) :
  string_all is_ws w = true -> parse_value (S f) (w ++ s) = parse_value (S f) s.
Proof. intros Hw. simpl. now rewrite (skip_ws_app _ _ Hw). Qed.

Lemma parse_value_array (f : nat) (s : string) :
  parse_value (S f) (String "["%char s) =
  option_map (fun xr => (JArray (fst xr), snd xr)) (parse_elements f s).
Proof. reflexivity. Qed.

Lemma parse_value_object (f : nat) (s : string) :
  parse_value (S f) (String "{"%char s) =
  option_map (fun pr => (JObject (build_object (fst pr)), snd pr)) (parse_members f s).
Proof. reflexivity. Qed.

Lemma parse_value_string (f : nat) (s : string) :
  parse_value (S f) (String dq_char s) =
  option_map (fun ur => (JString (fst ur), snd ur)) (unquote_chars s).
Proof. reflexivity. Qed.

Lemma parse_value_number (f : nat) (c : ascii) (s : string) :
  is_num_char c = true ->
  parse_value (S f) (String c s) =
  option_map (fun nr => (JNumber (fst nr), snd nr)) (parse_number (String c s)).
Proof.
  intros Hc. destruct (num_char_dispatch c Hc) as (W & Hn & Ht & Hf & Hq & Ha & Ho & _).
  simpl. now rewrite W, Hn, Ht, Hf, Hq, Ha, Ho, Hc.
Qed.

(** [parse_elements] / [parse_members] go on to the items when the
    next character is not the closing bracket. *)
Lemma parse_elements_items (f : nat) (s : string) (c : ascii) (r : string) :
  skip_ws s = String c r -> Ascii.eqb c "]"%char = false ->
  parse_elements (S f) s = parse_items f s.
Proof. intros E H. simpl. now rewrite E, H. Qed.

Lemma parse_members_pairs (f : nat) (s r : string) :
  skip_ws s = String dq_char r -> parse_members (S f) s = parse_pairs f s.
Proof. intros E. simpl. now rewrite E. Qed.

Lemma parse_items_S (f : nat) (s : string) :
  parse_items (S f) s =
  match parse_value f s with
  | Some (v, r) =>
      match skip_ws r with
      | String c r' =>
          if Ascii.eqb c ","%char then option_map (fun xr => (v :: fst xr, snd xr)) (parse_items f r')
          else if Ascii.eqb c "]"%char then Some ([v], r')
          else None
      | EmptyString => None
      end
  | None => None
  end.
Proof. reflexivity. Qed.

(** A member [k: v] followed by [tail]: the pair is read, then the
    decoder looks at the first non-blank character of [tail]. *)
Lemma parse_pairs_member (f : nat) (k t tail : string) (v : jsval) :
  parse_value f (" " ++ t ++ tail) = Some (v, tail) ->
  parse_pairs (S f) (quote_json_string k ++ ": " ++ t ++ tail) =
  match skip_ws tail with
  | String c3 r4 =>
      if Ascii.eqb c3 ","%char then option_map (fun pr => ((k, v) :: fst pr, snd pr)) (parse_pairs f r4)
      else if Ascii.eqb c3 "}"%char then Some ([(k, v)], r4)
      else None
  | EmptyString => None
  end.
Proof.
  intros Hv. unfold quote_json_string. rewrite !string_app_assoc.
  simpl parse_pairs at 1.
  change (String dq_char (String ":" (String " " (t ++ tail)))) with (dq ++ ": " ++ t ++ tail).
  rewrite unquote_quote_chars. simpl in Hv |- *.
  now rewrite Hv.
Qed.

(** ** The text [serialize] writes, piece by piece *)

(** The text of an array element ([null] for [undefined]), and of an
    object member. *)
Definition elem_text (ind : string) (x : jsval) : string :=
  match serialize ind x with Some s => s | None => "null" end.

Definition member_text (ind : string) (kv : string * jsval) : string :=
  quote_json_string (fst kv) ++ ": " ++ elem_text ind (snd kv).

(** The members [JSON.stringify] writes, those whose value is not
    [undefined]. *)
Definition present_members (ps : jsprops) : jsprops := filter (fun kv => defined (snd kv)) ps.

Lemma serialize_elem_text (ind : string) (v : jsval) :
  defined v = true -> serialize ind v = Some (elem_text ind v).
Proof. destruct v as [| | [] | | | |]; try discriminate; reflexivity. Qed.

Lemma flat_map_present {A} (g : string * jsval -> A) (ps : jsprops) :
  flat_map (fun kv => if defined (snd kv) then [g kv] else []) ps = map g (present_members ps).
Proof.
  unfold present_members. induction ps as [|[k x] ps IH]; simpl; [reflexivity|].
  destruct (defined x); simpl; now rewrite IH.
Qed.

Lemma normalize_object (ps : jsprops) :
  normalize (JObject ps) = JObject (map (fun kv => (fst kv, normalize (snd kv))) (present_members ps)).
Proof. simpl. f_equal. apply (flat_map_present (fun kv => (fst kv, normalize (snd kv)))). Qed.

Lemma jsval_size_object (ps : jsprops) :
  jsval_size (JObject ps) = 2 + list_sum (map (fun kv => S (jsval_size (snd kv))) (present_members ps)).
Proof.
  simpl. f_equal. f_equal. unfold present_members.
  induction ps as [|[k x] ps IH]; simpl; [reflexivity|].
  destruct (defined x); simpl; now rewrite IH.
Qed.

Lemma elem_text_object (ind : string) (ps : jsprops) :
  elem_text ind (JObject ps) =
  wrap_members "{" "}" ind (map (member_text (ind ++ gap)) (present_members ps)).
Proof.
  unfold elem_text. simpl. f_equal. unfold present_members.
  induction ps as [|[k x] ps IH]; simpl; [reflexivity|].
  destruct (defined x) eqn:D.
  - rewrite (serialize_elem_text _ _ D). simpl. now rewrite IH.
  - destruct x; try discriminate D. exact IH.
Qed.

Lemma wrap_members_cons (op cl sb : string) (l : list string) :
  l <> [] ->
  wrap_members op cl sb l =
  op ++ nl ++ (sb ++ gap) ++ String.concat ("," ++ nl ++ sb ++ gap) l ++ nl ++ sb ++ cl.
Proof. destruct l; [contradiction|reflexivity]. Qed.

Lemma concat_sep_cons (sep a : string) (l : list string) :
  l <> [] -> String.concat sep (a :: l) = a ++ sep ++ String.concat sep l.
Proof. destruct l; [contradiction|reflexivity]. Qed.

Lemma concat_cons_head (sep a : string) (l : list string) :
  exists tl, String.concat sep (a :: l) = a ++ tl.
Proof. destruct l; [exists ""; now rewrite string_app_nil_r | eexists; reflexivity]. Qed.

Lemma str1_app (c : ascii) (x : string) : String c EmptyString ++ x = String c x.
Proof. reflexivity. Qed.

Lemma skip_ws_app_cons (c : ascii) (t x : string) :
  is_ws c = false -> skip_ws (String c t ++ x) = String c (t ++ x).
Proof. intros H. simpl. now rewrite H. Qed.

(** Every element text starts with a character that is neither blank
    nor a closing bracket. *)
Lemma elem_text_head (ind : string) (x : jsval) :
  exists c t, elem_text ind x = String c t /\ is_ws c = false /\ Ascii.eqb c "]"%char = false.
Proof.
  destruct x as [| | [] | n | s | xs | ps];
    try solve [eexists _, _; split; [reflexivity | split; reflexivity]].
  - destruct (number_to_string_cons n) as (c & t & E).
    pose proof (number_to_string_num n) as Hn. rewrite E in Hn.
    apply andb_true_iff in Hn as [Hc _].
    destruct (num_char_dispatch c Hc) as (W & _ & _ & _ & _ & _ & _ & B & _).
    exists c, t. auto.
  - unfold elem_text. simpl.
    destruct (map _ xs); (eexists _, _; split; [reflexivity | split; reflexivity]).
  - rewrite elem_text_object.
    destruct (map _ _); (eexists _, _; split; [reflexivity | split; reflexivity]).
Qed.

(** ** Objects with distinct keys are rebuilt as they are *)

Lemma keys_distinct_NoDup (ks : list string) : keys_distinct ks = true <-> NoDup ks.
Proof.
  induction ks as [|k ks IH]; simpl.
  - split; [constructor | reflexivity].
  - rewrite andb_true_iff, negb_true_iff, IH, NoDup_cons_iff, <- not_true_iff_false, existsb_exists.
    split; intros [H1 H2]; split; auto; intros Hk; apply H1.
    + exists k. split; [exact Hk | apply String.eqb_refl].
    + destruct Hk as [k' [Hin E]]. apply String.eqb_eq in E. now subst.
Qed.

Lemma set_prop_fresh (ps : jsprops) (k : string) (v : jsval) :
  ~ In k (map fst ps) -> set_prop ps k v = (ps ++ [(k, v)])%list.
Proof.
  induction ps as [|[k' w] ps IH]; simpl; [reflexivity|].
  intros H. destruct (String.eqb_spec k k') as [->|_]; [tauto|].
  rewrite IH; auto.
Qed.

Lemma fold_set_prop (acc ps : jsprops) :
  NoDup (map fst (acc ++ ps)%list) ->
  fold_left (fun acc kv => set_prop acc (fst kv) (snd kv)) ps acc = (acc ++ ps)%list.
Proof.
  revert acc. induction ps as [|[k v] ps IH]; intros acc H; simpl.
  - now rewrite app_nil_r.
  - rewrite set_prop_fresh.
    + rewrite IH; [now rewrite <- app_assoc|]. now rewrite <- app_assoc.
    + rewrite map_app in H. apply NoDup_remove_2 in H.
      intros Hk. apply H. apply in_or_app. now left.
Qed.

Lemma build_object_distinct (ps : jsprops) : NoDup (map fst ps) -> build_object ps = ps.
Proof. intros H. exact (fold_set_prop [] ps H). Qed.

Lemma NoDup_present (ps : jsprops) : NoDup (map fst ps) -> NoDup (map fst (present_members ps)).
Proof.
  unfold present_members. induction ps as [|[k x] ps IH]; simpl; [auto|].
  intros [Hn Hd]%NoDup_cons_iff. destruct (defined x); simpl; auto.
  constructor; auto. intros Hin. apply Hn.
  apply in_map_iff in Hin as [[k' y] [Hk Hin]]. apply filter_In in Hin as [Hin _].
  simpl in Hk. subst k'. now apply (in_map fst) in Hin.
Qed.

(** ** The round trip, by induction on the value *)

(** [v] is read back from its text after any blank prefix [w] and
    before any delimited [rest], given fuel [jsval_size v]. *)
Definition parses_back (v : jsval) : Prop :=
  forall ind w rest fuel,
    string_all is_ws ind = true -> string_all is_ws w = true ->
    keys_wf v = true -> defined v = true -> delimited rest = true -> jsval_size v <= fuel ->
    parse_value fuel (w ++ elem_text ind v ++ rest) = Some (normalize v, rest).

Lemma ws_indent (ind : string) : string_all is_ws ind = true -> string_all is_ws (ind ++ gap) = true.
Proof. intros H. now rewrite string_all_app, H. Qed.

#[export] Hint Resolve ws_indent : mcp.

(** An array element, [undefined] included (written [null]). *)
Lemma parse_elem (ind w rest : string) (x : jsval) (fuel : nat) :
  parses_back x -> keys_wf x = true ->
  string_all is_ws ind = true -> string_all is_ws w = true -> delimited rest = true ->
  jsval_size x <= fuel ->
  parse_value fuel (w ++ elem_text ind x ++ rest) =
  Some (if defined x then normalize x else JNull, rest).
Proof.
  intros Hx Hwf Hind Hw Hr Hsz. destruct (defined x) eqn:D; [now apply Hx|].
  destruct x; try discriminate D.
  destruct fuel as [|f]; [simpl in Hsz; lia|].
  rewrite parse_value_ws by exact Hw. reflexivity.
Qed.

(** The elements of a non-empty array, from the first up to and
    including the closing bracket. *)
Lemma parse_items_ok (ind : string) (xs : list jsval) :
  Forall (fun x => parses_back x /\ keys_wf x = true) xs -> xs <> [] ->
  forall w rest fuel,
  string_all is_ws ind = true -> string_all is_ws w = true ->
  list_sum (map (fun x => S (jsval_size x)) xs) <= fuel ->
  parse_items fuel
    (w ++ String.concat ("," ++ nl ++ ind ++ gap) (map (elem_text (ind ++ gap)) xs) ++
       nl ++ ind ++ "]" ++ rest) =
  Some (map (fun x => if defined x then normalize x else JNull) xs, rest).
Proof.
  intros Hall. induction Hall as [|x xs [Hx Hwf] Hall IH];
    intros Hne w rest fuel Hind Hw Hsz; [congruence|].
  destruct fuel as [|f]; [simpl in Hsz; lia|].
  rewrite parse_items_S. simpl in Hsz.
  destruct xs as [|x2 xs'].
  - simpl map. simpl String.concat.
    rewrite parse_elem by (auto with mcp; simpl in *; lia).
    rewrite (skip_ws_app nl), (skip_ws_app ind) by auto with mcp. reflexivity.
  - rewrite map_cons, concat_sep_cons by discriminate.
    rewrite !string_app_assoc.
    rewrite parse_elem by (auto with mcp; simpl in *; lia).
    rewrite (str1_app ","%char), (skip_ws_cons ","%char) by reflexivity.
    cbn iota. rewrite Ascii.eqb_refl.
    specialize (IH ltac:(discriminate) (nl ++ ind ++ gap) rest f Hind).
    rewrite !string_app_assoc in IH. rewrite IH; [reflexivity| |simpl in *; lia].
    rewrite !string_all_app, Hind. reflexivity.
Qed.

Lemma parse_pairs_ws (f : nat) (w s : string) :
  string_all is_ws w = true -> parse_pairs (S f) (w ++ s) = parse_pairs (S f) s.
Proof. intros Hw. simpl. now rewrite (skip_ws_app _ _ Hw). Qed.

(** The members of a non-empty object, up to and including the
    closing brace. *)
Lemma parse_pairs_ok (ind : string) (qs : jsprops) :
  Forall (fun kv => parses_back (snd kv) /\ keys_wf (snd kv) = true /\ defined (snd kv) = true) qs ->
  qs <> [] ->
  forall w rest fuel,
  string_all is_ws ind = true -> string_all is_ws w = true ->
  list_sum (map (fun kv => S (jsval_size (snd kv))) qs) <= fuel ->
  parse_pairs fuel
    (w ++ String.concat ("," ++ nl ++ ind ++ gap) (map (member_text (ind ++ gap)) qs) ++
       nl ++ ind ++ "}" ++ rest) =
  Some (map (fun kv => (fst kv, normalize (snd kv))) qs, rest).
Proof.
  intros Hall. induction Hall as [|[k x] qs (Hx & Hwf & Hd) Hall IH];
    intros Hne w rest fuel Hind Hw Hsz; [congruence|].
  destruct fuel as [|f]; [simpl in Hsz; lia|].
  rewrite parse_pairs_ws by exact Hw. simpl in Hsz, Hx, Hwf, Hd.
  destruct qs as [|q2 qs'].
  - simpl map. simpl String.concat. unfold member_text. cbn [fst snd].
    rewrite !string_app_assoc.
    erewrite parse_pairs_member.
    + rewrite (skip_ws_app nl), (skip_ws_app ind) by auto with mcp. reflexivity.
    + apply Hx; auto with mcp; try reflexivity; lia.
  - rewrite map_cons, concat_sep_cons by discriminate.
    unfold member_text at 1. cbn [fst snd]. rewrite !string_app_assoc.
    erewrite parse_pairs_member.
    + rewrite (str1_app ","%char), (skip_ws_cons ","%char) by reflexivity.
      cbn iota. rewrite Ascii.eqb_refl.
      specialize (IH ltac:(discriminate) (nl ++ ind ++ gap) rest f Hind).
      rewrite !string_app_assoc in IH. rewrite IH; [reflexivity| |simpl in *; lia].
      rewrite !string_all_app, Hind. reflexivity.
    + apply Hx; auto with mcp; try reflexivity; simpl in *; lia.
Qed.

(** Every value but [undefined], with distinct keys in its objects, is
    read back from its text as its normal form. *)
Lemma parses_back_all (v : jsval) : parses_back v.
Proof.
  induction v as [| | b | n | s | xs IH | ps IH] using jsval_rect_all;
    intros ind w rest fuel Hind Hw Hwf Hdef Hr Hsz; [discriminate Hdef| ..];
    (destruct fuel as [|f]; [simpl in Hsz; lia|]); rewrite parse_value_ws by exact Hw.
  - reflexivity.
  - destruct b; reflexivity.
  - destruct (number_to_string_cons n) as (c & t & E).
    pose proof (number_to_string_num n) as Hn. rewrite E in Hn.
    apply andb_true_iff in Hn as [Hc _].
    change (elem_text ind (JNumber n)) with (number_to_string n). rewrite E.
    change (String c t ++ rest) with (String c (t ++ rest)).
    rewrite (parse_value_number f c _ Hc).
    change (String c (t ++ rest)) with (String c t ++ rest).
    rewrite <- E, parse_number_app by exact Hr. reflexivity.
  - change (elem_text ind (JString s)) with (quote_json_string s).
    unfold quote_json_string. rewrite !string_app_assoc.
    change (dq ++ quote_chars s ++ dq ++ rest) with (String dq_char (quote_chars s ++ dq ++ rest)).
    rewrite parse_value_string, unquote_quote_chars. reflexivity.
  - simpl in Hwf.
    assert (Hall : Forall (fun x => parses_back x /\ keys_wf x = true) xs).
    { rewrite Forall_forall in IH |- *. rewrite forallb_forall in Hwf. auto. }
    destruct xs as [|x xs'].
    + destruct f; [simpl in Hsz; lia|]. reflexivity.
    + change (elem_text ind (JArray (x :: xs')))
        with (wrap_members "[" "]" ind (map (elem_text (ind ++ gap)) (x :: xs'))).
      rewrite wrap_members_cons by discriminate.
      rewrite !string_app_assoc, (str1_app "["%char), parse_value_array.
      destruct f as [|f]; [simpl in Hsz; lia|].
      destruct (elem_text_head (ind ++ gap) x) as (c & t & Ec & Wc & Bc).
      destruct (concat_cons_head ("," ++ nl ++ ind ++ gap) (elem_text (ind ++ gap) x)
                  (map (elem_text (ind ++ gap)) xs')) as [tl Etl].
      erewrite parse_elements_items; [| | exact Bc].
      * pose proof (parse_items_ok ind (x :: xs') Hall ltac:(discriminate)
                      (nl ++ ind ++ gap) rest f Hind) as Hi.
        rewrite !string_app_assoc in Hi. rewrite Hi; [reflexivity| |simpl in *; lia].
        rewrite !string_all_app, Hind. reflexivity.
      * rewrite (skip_ws_app nl), (skip_ws_app ind), (skip_ws_app gap) by auto with mcp.
        rewrite map_cons, Etl, Ec, string_app_assoc, skip_ws_app_cons by exact Wc. reflexivity.
  - simpl in Hwf. apply andb_true_iff in Hwf as [Hkeys Hwfs].
    rewrite elem_text_object, normalize_object. rewrite jsval_size_object in Hsz.
    assert (Hall : Forall (fun kv => parses_back (snd kv) /\ keys_wf (snd kv) = true /\
                                     defined (snd kv) = true) (present_members ps)).
    { apply Forall_forall. intros kv Hin. unfold present_members in Hin.
      apply filter_In in Hin as [Hin Hd].
      rewrite Forall_forall in IH. rewrite forallb_forall in Hwfs. auto. }
    assert (Hnd : NoDup (map fst (map (fun kv => (fst kv, normalize (snd kv))) (present_members ps)))).
    { rewrite map_map. apply NoDup_present, keys_distinct_NoDup, Hkeys. }
    revert Hall Hnd Hsz. destruct (present_members ps) as [|q qs]; intros Hall Hnd Hsz.
    + destruct f; [simpl in Hsz; lia|]. reflexivity.
    + rewrite wrap_members_cons by discriminate.
      rewrite !string_app_assoc, (str1_app "{"%char), parse_value_object.
      destruct f as [|f]; [simpl in Hsz; lia|].
      destruct (concat_cons_head ("," ++ nl ++ ind ++ gap) (member_text (ind ++ gap) q)
                  (map (member_text (ind ++ gap)) qs)) as [tl Etl].
      erewrite parse_members_pairs.
      * pose proof (parse_pairs_ok ind (q :: qs) Hall ltac:(discriminate)
                      (nl ++ ind ++ gap) rest f Hind) as Hp.
        rewrite !string_app_assoc in Hp. rewrite Hp; [| |simpl in *; lia].
        -- cbn [option_map fst snd]. now rewrite build_object_distinct.
        -- rewrite !string_all_app, Hind. reflexivity.
      * rewrite (skip_ws_app nl), (skip_ws_app ind), (skip_ws_app gap) by auto with mcp.
        rewrite map_cons, Etl. reflexivity.
Qed.

(** ** The fuel [json_parse] gives is enough *)

Lemma list_sum_map_le {A} (f g : A -> nat) (l : list A) :
  (forall x, In x l -> f x <= g x) -> list_sum (map f l) <= list_sum (map g l).
Proof.
  induction l as [|a l IH]; simpl; intros H; [lia|].
  specialize (IH (fun x Hx => H x (or_intror Hx))). specialize (H a (or_introl eq_refl)). lia.
Qed.

Lemma concat_length (sep : string) (l : list string) :
  1 <= String.length sep ->
  list_sum (map (fun a => S (String.length a)) l) <= S (String.length (String.concat sep l)).
Proof.
  intros Hs. induction l as [|a l IH]; [simpl; lia|].
  destruct l as [|b l]; [simpl; lia|].
  rewrite concat_sep_cons, map_cons by discriminate. unfold list_sum in *. cbn [fold_right].
  rewrite !string_length_app. lia.
Qed.

(** The brackets, line breaks and indentation of [wrap_members] take
    at least two characters, plus one per member. *)
Lemma wrap_members_length (op cl sb : string) (l : list string) :
  String.length op = 1 -> String.length cl = 1 ->
  2 + list_sum (map (fun a => S (String.length a)) l) <= String.length (wrap_members op cl sb l).
Proof.
  intros Hop Hcl. destruct l as [|a l].
  - simpl. rewrite string_length_app. lia.
  - rewrite wrap_members_cons by discriminate. rewrite !string_length_app.
    pose proof (concat_length ("," ++ nl ++ sb ++ gap) (a :: l)) as Hc.
    rewrite string_length_app in Hc. cbn [String.length] in Hc.
    change (String.length nl) with 1. change (String.length gap) with 2. lia.
Qed.

Lemma jsval_size_le_length (ind : string) (v : jsval) :
  jsval_size v <= String.length (elem_text ind v).
Proof.
  revert ind. induction v as [| | b | n | s | xs IH | ps IH] using jsval_rect_all; intros ind.
  - cbn. lia.
  - cbn. lia.
  - destruct b; cbn; lia.
  - change (elem_text ind (JNumber n)) with (number_to_string n).
    destruct (number_to_string_cons n) as (c & t & ->). simpl. lia.
  - change (elem_text ind (JString s)) with (quote_json_string s).
    unfold quote_json_string. rewrite !string_length_app. simpl. lia.
  - change (elem_text ind (JArray xs))
      with (wrap_members "[" "]" ind (map (elem_text (ind ++ gap)) xs)).
    change (jsval_size (JArray xs)) with (2 + list_sum (map (fun y => S (jsval_size y)) xs)).
    pose proof (wrap_members_length "[" "]" ind (map (elem_text (ind ++ gap)) xs) eq_refl eq_refl) as Hw.
    rewrite map_map in Hw.
    enough (list_sum (map (fun y => S (jsval_size y)) xs) <=
            list_sum (map (fun y => S (String.length (elem_text (ind ++ gap) y))) xs)) by lia.
    apply list_sum_map_le. intros y Hy. rewrite Forall_forall in IH.
    specialize (IH y Hy (ind ++ gap)). lia.
  - rewrite elem_text_object, jsval_size_object.
    pose proof (wrap_members_length "{" "}" ind
                  (map (member_text (ind ++ gap)) (present_members ps)) eq_refl eq_refl) as Hw.
    rewrite map_map in Hw.
    enough (list_sum (map (fun kv => S (jsval_size (snd kv))) (present_members ps)) <=
            list_sum (map (fun kv => S (String.length (member_text (ind ++ gap) kv)))
                          (present_members ps))) by lia.
    apply list_sum_map_le. intros kv Hkv. unfold present_members in Hkv.
    apply filter_In in Hkv as [Hkv _]. rewrite Forall_forall in IH.
    specialize (IH kv Hkv (ind ++ gap)). unfold member_text.
    rewrite !string_length_app. lia.
Qed.

(** The text [JSON.stringify] gives, followed by any delimited [rest],
    reads back as the normal form of the value, given fuel
    [jsval_size v]. *)
Lemma parse_stringified (v : jsval) (t rest : string) (fuel : nat) :
  keys_wf v = true -> json_stringify v = Some t -> delimited rest = true ->
  jsval_size v <= fuel -> parse_value fuel (t ++ rest) = Some (normalize v, rest).
Proof.
  intros Hwf Ht Hr Hsz.
  assert (Hd : defined v = true) by (destruct v; [discriminate Ht | reflexivity ..]).
  unfold json_stringify in Ht. rewrite serialize_elem_text in Ht by exact Hd.
  injection Ht as <-. exact (parses_back_all v "" "" rest fuel eq_refl eq_refl Hwf Hd Hr Hsz).
Qed.

Lemma stringified_size (v : jsval) (t : string) :
  json_stringify v = Some t -> jsval_size v <= String.length t.
Proof.
  intros Ht. assert (Hd : defined v = true) by (destruct v; [discriminate Ht | reflexivity ..]).
  unfold json_stringify in Ht. rewrite serialize_elem_text in Ht by exact Hd.
  injection Ht as <-. apply jsval_size_le_length.
Qed.

(** [JSON.parse] of a text [JSON.stringify] wrote. *)
Lemma json_parse_stringified (v : jsval) (t : string) :
  keys_wf v = true -> json_stringify v = Some t -> json_parse t = Some (normalize v).
Proof.
  intros Hwf Ht. unfold json_parse.
  pose proof (parse_stringified v t "" (String.length t) Hwf Ht eq_refl (stringified_size v t Ht)) as H.
  rewrite string_app_nil_r in H. now rewrite H.
Qed.

(** JSON data is its own normal form. *)
Lemma normalize_json_data (v : jsval) : json_data v = true -> normalize v = v.
Proof.
  induction v as [| | | | | xs IH | ps IH] using jsval_rect_all; simpl; intros Hj;
    try reflexivity; try discriminate.
  - f_equal. induction IH as [|x xs Hx _ IHxs]; [reflexivity|].
    simpl in Hj. apply andb_true_iff in Hj as [H1 H2].
    simpl. rewrite (IHxs H2), (Hx H1). now destruct x.
  - f_equal. induction IH as [|[k x] ps Hx _ IHps]; [reflexivity|].
    simpl in Hj, Hx. apply andb_true_iff in Hj as [H1 H2].
    simpl. rewrite (IHps H2), (Hx H1). now destruct x.
Qed.

(** ** Claims *)

(** C23: round trip of whole values: every value other than [undefined]
    whose objects have distinct keys is printed by
    [JSON.stringify(v, null, 2)], and [JSON.parse] of the text gives
    back [v] with its [undefined] object members dropped and its
    [undefined] array elements turned into [null]. *)
Theorem json_stringify_parse_roundtrip (v : jsval) :
  v <> JUndefined -> keys_wf v = true ->
  exists t, json_stringify v = Some t /\ json_parse t = Some (normalize v).
Proof.
  intros Hu Hwf. destruct (json_stringify v) as [t|] eqn:Ht.
  - exists t. split; [reflexivity|]. exact (json_parse_stringified v t Hwf Ht).
  - apply serialize_None in Ht. contradiction.
Qed.

(** ** Witnesses *)

(** An answer of the shape Vault gives, with a member and an element
    that are [undefined] in the value the handler holds. *)
Definition sample_value : jsval :=
  JObject [("data", JObject [("password", JString "s3cr3t"); ("note", JUndefined)]);
           ("versions", JArray [JNumber (-1); JUndefined; JArray []; JBool true; JNull])].

Lemma json_stringify_parse_roundtrip_witness :
  sample_value <> JUndefined /\ keys_wf sample_value = true /\
  exists t, json_stringify sample_value = Some t /\ json_parse t = Some (normalize sample_value).
Proof.
  split; [discriminate|]. split; [reflexivity|].
  apply json_stringify_parse_roundtrip; [discriminate | reflexivity].
Defined.

End JsonParse.
