(* ===== verification/JsonLayout.v ===== *)
(** * JsonLayout: the lines and indentation of [JSON.stringify(v, null, 2)]

    Section 4.1 of the specification says each tool renders its answer
    as "pretty-printed (indent = 2 spaces) JSON text" (src/src/index.ts
    lines 126, 140, 153).  This file states that layout directly, as a
    reference printer independent of ECMAScript's algorithm: [layout v]
    is the list of the lines of [v], each with its nesting depth, and
    [render] writes every line after the first on a new line indented
    by two spaces per level of depth.  The equivalence theorem shows
    that [json_stringify] (SerializeJSONProperty with gap ["  "],
    [JsonStringify.v]) prints exactly that.  The file also counts the
    length of a quoted string token against an independent table of
    escape widths ([escaped_width]). *)

From Stdlib Require Import String Ascii ZArith List Bool Lia.
From S2P Require Import Prelude JsValue JsonStringify JsonParse.
Import ListNotations.
Import JsValue JsonStringify JsonParse.
Open Scope string_scope.

Module JsonLayout.

(** ** The reference layout *)

(** A line: its depth below the indentation of the value it belongs to,
    and its text after the indentation. *)
Definition line : Type := (nat * string)%type.

(** Two spaces per level. *)
Fixpoint gaps (d : nat) : string :=
  match d with
  | O => ""
  | S d' => gap ++ gaps d'
  end.

(** Each line on a new line, indented by [ind] and its depth. *)
Fixpoint lines_text (ind : string) (ls : list line) : string :=
  match ls with
  | [] => ""
  | l :: rest => nl ++ ind ++ gaps (fst l) ++ snd l ++ lines_text ind rest
  end.

(** The first line where the caller placed it, the others below it. *)
Definition render (ind : string) (ls : list line) : string :=
  match ls with
  | [] => ""
  | l0 :: rest => snd l0 ++ lines_text ind rest
  end.

Definition shift (ls : list line) : list line := map (fun l => (S (fst l), snd l)) ls.

Definition prefix_first (p : string) (ls : list line) : list line :=
  match ls with
  | [] => []
  | (d, c) :: rest => (d, p ++ c) :: rest
  end.

Fixpoint append_last (sfx : string) (ls : list line) : list line :=
  match ls with
  | [] => []
  | [(d, c)] => [(d, c ++ sfx)]
  | l :: rest => l :: append_last sfx rest
  end.

(** The members of a bracket pair, a comma after each but the last. *)
Fixpoint join_items (items : list (list line)) : list line :=
  match items with
  | [] => []
  | [i] => i
  | i :: rest => (append_last "," i ++ join_items rest)%list
  end.

(** A bracket pair: [op cl] when empty; otherwise the opening bracket,
    the members one level deeper, the closing bracket at the depth of
    the opening one. *)
Definition block (op cl : string) (items : list (list line)) : list line :=
  match items with
  | [] => [(0, op ++ cl)]
  | _ :: _ => ((0, op) :: shift (join_items items) ++ [(0, cl)])%list
  end.

(** The lines of a value; [undefined] is written [null], as an array
    element, and members whose value is [undefined] are left out. *)
Fixpoint layout (v : jsval) : list line :=
  match v with
  | JUndefined | JNull => [(0, "null")]
  | JBool true => [(0, "true")]
  | JBool false => [(0, "false")]
  | JNumber n => [(0, number_to_string n)]
  | JString s => [(0, quote_json_string s)]
  | JArray xs => block "[" "]" (map layout xs)
  | JObject ps =>
      block "{" "}"
        (flat_map (fun kv => if defined (snd kv)
                             then [prefix_first (quote_json_string (fst kv) ++ ": ") (layout (snd kv))]
                             else []) ps)
  end.

(** ** The width of an escaped code unit *)

(** The number of characters the ECMAScript table of QuoteJSONString
    writes for one code unit: two for the seven short escapes
    (backspace, tab, line feed, form feed, carriage return, quote,
    backslash), six for the [\u00XX] escape of any other code unit below
    0x20, one for a code unit written as itself. *)
Definition escaped_width (c : ascii) : nat :=
  let n := nat_of_ascii c in
  if existsb (Nat.eqb n) [8; 9; 10; 12; 13; 34; 92] then 2
  else if Nat.ltb n 32 then 6
  else 1.

(** ** Lemmas on rendering *)

(** A layout whose first line is at depth 0, as every [layout v] is. *)
Definition starts_at_top (ls : list line) : Prop := exists c rest, ls = (0, c) :: rest.

Lemma lines_text_app (ind : string) (l1 l2 : list line) :
  lines_text ind (l1 ++ l2)%list = lines_text ind l1 ++ lines_text ind l2.
Proof.
  induction l1 as [|l l1 IH]; [reflexivity|]. simpl. rewrite IH. now rewrite !string_app_assoc.
Qed.

Lemma lines_text_shift (ind : string) (ls : list line) :
  lines_text ind (shift ls) = lines_text (ind ++ gap) ls.
Proof.
  induction ls as [|[d c] ls IH]; [reflexivity|].
  cbn [shift map lines_text fst snd gaps]. fold (shift ls). rewrite IH.
  now rewrite !string_app_assoc.
Qed.

Lemma lines_text_append_last (ind sfx : string) (ls : list line) :
  ls <> [] -> lines_text ind (append_last sfx ls) = lines_text ind ls ++ sfx.
Proof.
  induction ls as [|[d c] ls IH]; [contradiction|]. intros _.
  destruct ls as [|l' ls].
  - cbn [append_last lines_text fst snd]. now rewrite !string_app_nil_r, !string_app_assoc.
  - change (append_last sfx ((d, c) :: l' :: ls)) with ((d, c) :: append_last sfx (l' :: ls)).
    change (lines_text ind ((d, c) :: ?r)) with (nl ++ ind ++ gaps d ++ c ++ lines_text ind r).
    rewrite IH by discriminate. now rewrite !string_app_assoc.
Qed.

(** A layout starting at the top, written on a new line. *)
Lemma lines_text_top (ind : string) (ls : list line) :
  starts_at_top ls -> lines_text ind ls = nl ++ ind ++ render ind ls.
Proof. intros (c & rest & ->). reflexivity. Qed.

Lemma lines_text_join (ind : string) (items : list (list line)) :
  Forall starts_at_top items -> items <> [] ->
  lines_text ind (join_items items) =
  nl ++ ind ++ String.concat ("," ++ nl ++ ind) (map (render ind) items).
Proof.
  induction 1 as [|i items Hi Hall IH]; [contradiction|]. intros _.
  destruct items as [|i2 items].
  - cbn [join_items map String.concat]. now apply lines_text_top.
  - change (join_items (i :: i2 :: items)) with (append_last "," i ++ join_items (i2 :: items))%list.
    assert (i <> []) by (destruct Hi as (c & r & ->); discriminate).
    rewrite lines_text_app, lines_text_append_last, IH by (auto; discriminate).
    rewrite (map_cons (render ind) i), (concat_sep_cons _ (render ind i)) by (simpl; discriminate).
    rewrite (lines_text_top ind i Hi). now rewrite !string_app_assoc.
Qed.

(** A bracket pair renders as [wrap_members] does. *)
Lemma render_block (op cl ind : string) (items : list (list line)) :
  Forall starts_at_top items ->
  render ind (block op cl items) = wrap_members op cl ind (map (render (ind ++ gap)) items).
Proof.
  intros Hall. destruct items as [|i items].
  - cbn. now rewrite string_app_nil_r.
  - rewrite wrap_members_cons by discriminate.
    cbn [block render snd]. rewrite lines_text_app, lines_text_shift, lines_text_join by
      (auto; discriminate).
    cbn [lines_text gaps fst snd]. now rewrite !string_app_assoc, string_app_nil_r.
Qed.

Lemma block_top (op cl : string) (items : list (list line)) : starts_at_top (block op cl items).
Proof. destruct items; eexists _, _; reflexivity. Qed.

Lemma layout_top (v : jsval) : starts_at_top (layout v).
Proof. destruct v as [| | [] | | | |]; try apply block_top; eexists _, _; reflexivity. Qed.

Lemma render_prefix_first (ind p : string) (ls : list line) :
  starts_at_top ls -> render ind (prefix_first p ls) = p ++ render ind ls.
Proof. intros (c & rest & ->). cbn. now rewrite string_app_assoc. Qed.

Lemma prefix_first_top (p : string) (ls : list line) :
  starts_at_top ls -> starts_at_top (prefix_first p ls).
Proof. intros (c & rest & ->). eexists _, _. reflexivity. Qed.

(** The text of every value, at every indentation, is its rendered
    layout. *)
Lemma elem_text_layout (v : jsval) : forall ind, elem_text ind v = render ind (layout v).
Proof.
  induction v as [| | b | n | s | xs IH | ps IH] using jsval_rect_all; intros ind;
    try (destruct b); try (cbn; now rewrite ?string_app_nil_r).
  - change (elem_text ind (JArray xs))
      with (wrap_members "[" "]" ind (map (elem_text (ind ++ gap)) xs)).
    cbn [layout]. rewrite render_block.
    + rewrite map_map. f_equal. apply map_ext_in. intros x Hx.
      rewrite Forall_forall in IH. apply IH, Hx.
    + apply Forall_forall. intros l Hl. apply in_map_iff in Hl as (x & <- & _). apply layout_top.
  - rewrite elem_text_object. cbn [layout].
    rewrite (flat_map_present (fun kv => prefix_first (quote_json_string (fst kv) ++ ": ")
                                                      (layout (snd kv)))).
    rewrite render_block.
    + rewrite map_map. f_equal. apply map_ext_in. intros kv Hkv.
      rewrite render_prefix_first by apply layout_top. unfold member_text.
      unfold present_members in Hkv. apply filter_In in Hkv as [Hkv _].
      rewrite Forall_forall in IH. rewrite (IH kv Hkv). now rewrite string_app_assoc.
    + apply Forall_forall. intros l Hl. apply in_map_iff in Hl as (kv & <- & _).
      apply prefix_first_top, layout_top.
Qed.

(** [JSON.stringify(v, null, 2)] is the line layout rendered at the
    top level, for every value it writes. *)
Lemma json_stringify_render (v : jsval) :
  defined v = true -> json_stringify v = Some (render "" (layout v)).
Proof.
  intros Hd. unfold json_stringify. rewrite serialize_elem_text by exact Hd.
  f_equal. apply elem_text_layout.
Qed.

(** ** Length of a quoted token *)

Lemma quote_char_width (c : ascii) : String.length (quote_char c) = escaped_width c.
Proof. destruct c as [[] [] [] [] [] [] [] []]; reflexivity. Qed.

Lemma escaped_width_bounds (c : ascii) : 1 <= escaped_width c <= 6.
Proof.
  unfold escaped_width. destruct (existsb _ _); [lia|]. destruct (Nat.ltb _ _); lia.
Qed.

Lemma quote_chars_width (s : string) :
  String.length (quote_chars s) = list_sum (map escaped_width (list_ascii_of_string s)).
Proof.
  induction s as [|c s IH]; [reflexivity|].
  cbn [quote_chars list_ascii_of_string map].
  change (list_sum (?x :: ?l)) with (x + list_sum l).
  now rewrite string_length_app, quote_char_width, IH.
Qed.

Lemma escaped_widths_bounds (s : string) :
  String.length s <= list_sum (map escaped_width (list_ascii_of_string s)) <= 6 * String.length s.
Proof.
  induction s as [|c s IH]; [cbn; lia|].
  cbn [list_ascii_of_string map String.length].
  change (list_sum (?x :: ?l)) with (x + list_sum l).
  pose proof (escaped_width_bounds c). lia.
Qed.

(** C27: [JSON.stringify(v, null, 2)] is the layout of [v] line by line:
    the value's first line, then each further line on a line of its
    own, indented two spaces per level of nesting, every array element
    and object member but the last followed by a comma, members whose
    value is [undefined] left out; [undefined] alone gives [undefined].
    The ECMAScript-derived serializer and this reference printer agree
    on every value. *)
Theorem json_stringify_layout (v : jsval) :
  json_stringify v = match v with JUndefined => None | _ => Some (render "" (layout v)) end.
Proof. destruct v; [reflexivity | apply json_stringify_render; reflexivity ..]. Qed.

(** C28: the length of the token [JSON.stringify] writes for a string
    is the two quotes plus, for each code unit, the width the ECMAScript
    escape table gives it: two for a short escape, six for a [\u00XX]
    escape, one for a code unit written as itself.  So it lies between
    the string's length plus two and six characters per code unit plus
    two. *)
Theorem json_stringify_string_length (s : string) :
  exists t, json_stringify (JString s) = Some t /\
            String.length t = 2 + list_sum (map escaped_width (list_ascii_of_string s)) /\
            String.length s + 2 <= String.length t <= 6 * String.length s + 2.
Proof.
  exists (quote_json_string s). split; [reflexivity|].
  unfold quote_json_string. rewrite !string_length_app, quote_chars_width.
  pose proof (escaped_widths_bounds s). cbn [dq String.length]. lia.
Qed.

End JsonLayout.
