(* ===== verification/Dispatcher.v ===== *)
(** * Dispatcher: the [tools/call] handler (index.ts lines 113-187)

    The handler takes the tool [name] and the [arguments] object of the
    request, and inside one [try] block switches on the name.  Each of
    the four known tools destructures its arguments, awaits exactly one
    call of the Vault client and builds a text content item; the
    [default] branch throws [Unknown tool].  The [catch] turns whatever
    was thrown (a destructuring TypeError, a rejected Vault call, a
    failed property read, the unknown-tool error) into a result with
    [isError: true].

    The handler is modelled as an interaction tree whose events are the
    four Vault client calls ([vaultE]); the answer to an event is the
    settled promise: [inr v] resolved with [v], [inl e] rejected with
    [e].  The body of the [try] is an [itree vaultE (thrown + call_result)],
    the [catch] is [catch_result].  The Vault client is the interface
    [VaultClient], a class with one operation per call on a client state;
    the theorems of this file hold for every instance. *)

From Stdlib Require Import String Ascii ZArith List Bool Lia.
From ITree Require Import ITree ITreeFacts Events.State Events.StateFacts.
From S2P Require Import Prelude JsValue JsonStringify.
Import ListNotations.
Import JsValue JsonStringify.
Import ITree.Basics.Basics.Monads.
Open Scope string_scope.

Module Dispatcher.

(** ** The Vault client as events *)

(** A settled promise of the client: rejected or resolved. *)
Abbreviation outcome := (thrown + jsval)%type.

(** [vaultClient.read(path)], [vaultClient.write(path, body)],
    [vaultClient.list(path)], [vaultClient.delete(path)]; the path is
    whatever value the arguments held. *)
Variant vaultE : Type -> Type :=
| VaultRead (path : jsval) : vaultE outcome
| VaultWrite (path body : jsval) : vaultE outcome
| VaultList (path : jsval) : vaultE outcome
| VaultDelete (path : jsval) : vaultE outcome.

(** ** Results *)

(** A content item [{ type, text }]; [text] is [None] when the
    expression that computed it was [undefined]. *)
Record content_item : Type := mk_item { item_type : string; item_text : option string }.

(** [{ content, isError? }]: [isError] is [None] when the field is
    absent. *)
Record call_result : Type := mk_result { content : list content_item; isError : option bool }.

Definition text_item (t : option string) : content_item := mk_item "text" t.

(** [{ content: [{ type: "text", text: t }] }], as each tool returns. *)
Definition text_result (t : option string) : call_result := mk_result [text_item t] None.

(** ** The [try] body *)

Declare Scope try_scope.
Delimit Scope try_scope with try.

(** [await! x := t in k]: bind in the interaction tree. *)
Notation "'await!' x ':=' t 'in' k" := (ITree.bind t (fun x => k))
  (at level 10, x name, t at level 100, k at level 200) : try_scope.
Open Scope try_scope.

(** [await call]: a rejected promise throws at the [await]. *)
Definition await_call (e : vaultE outcome)
    (k : jsval -> itree vaultE (thrown + call_result)) : itree vaultE (thrown + call_result) :=
  await! o := ITree.trigger e in
  match o with
  | inl err => Ret (inl err)
  | inr v => k v
  end.

(** [const { path } = args] (and [{ path, data }]): V8's TypeError when
    [args] is [undefined], the request having no [arguments]. *)
Definition destructure_args (args : option jsprops) : thrown + jsprops :=
  match args with
  | None => inl (type_error "Cannot destructure property 'path' of 'args' as it is undefined.")
  | Some ps => inr ps
  end.

(** [case "vault_read"] (lines 119-130). *)
Definition handle_read (args : option jsprops) : itree vaultE (thrown + call_result) :=
  match destructure_args args with
  | inl e => Ret (inl e)
  | inr ps =>
      await_call (VaultRead (get_prop ps "path")) (fun result =>
        Ret (match get_member result "data" with
             | inl e => inl e
             | inr d => inr (text_result (json_stringify d))
             end))
  end.

(** [case "vault_write"] (lines 132-144): the data is sent wrapped as
    [{ data }]; the whole answer is rendered. *)
Definition handle_write (args : option jsprops) : itree vaultE (thrown + call_result) :=
  match destructure_args args with
  | inl e => Ret (inl e)
  | inr ps =>
      await_call (VaultWrite (get_prop ps "path") (JObject [("data", get_prop ps "data")]))
        (fun result => Ret (inr (text_result (json_stringify result))))
  end.

(** [case "vault_list"] (lines 146-157). *)
Definition handle_list (args : option jsprops) : itree vaultE (thrown + call_result) :=
  match destructure_args args with
  | inl e => Ret (inl e)
  | inr ps =>
      await_call (VaultList (get_prop ps "path")) (fun result =>
        Ret (match get_member result "data" with
             | inl e => inl e
             | inr d => inr (text_result (json_stringify d))
             end))
  end.

(** [case "vault_delete"] (lines 159-170): the answer is discarded and
    the path is substituted into a template literal. *)
Definition handle_delete (args : option jsprops) : itree vaultE (thrown + call_result) :=
  match destructure_args args with
  | inl e => Ret (inl e)
  | inr ps =>
      await_call (VaultDelete (get_prop ps "path")) (fun _ =>
        Ret (inr (text_result
                    (Some ("Successfully deleted secret at path: "
                           ++ js_to_string (get_prop ps "path"))))))
  end.

(** The [switch (name)] with its [default] (lines 118-174). *)
Definition tool_body (name : string) (args : option jsprops)
    : itree vaultE (thrown + call_result) :=
  if String.eqb name "vault_read" then handle_read args
  else if String.eqb name "vault_write" then handle_write args
  else if String.eqb name "vault_list" then handle_list args
  else if String.eqb name "vault_delete" then handle_delete args
  else Ret (inl (ErrorObject "Error" ("Unknown tool: " ++ name))).

(** [error instanceof Error ? error.message : String(error)] (line 176). *)
Definition error_message (e : thrown) : string :=
  match e with
  | ErrorObject _ m => m
  | ThrownValue v => js_to_string v
  end.

(** The [catch] (lines 175-186). *)
Definition catch_result (name : string) (r : thrown + call_result) : call_result :=
  match r with
  | inr res => res
  | inl e =>
      mk_result [text_item (Some ("Error executing " ++ name ++ ": " ++ error_message e))]
                (Some true)
  end.

(** The whole handler (lines 114-187). *)
Definition call_tool (name : string) (args : option jsprops) : itree vaultE call_result :=
  await! r := tool_body name args in Ret (catch_result name r).

(** The four names the [switch] recognises, in the order of its cases. *)
Definition known_tools : list string := ["vault_read"; "vault_write"; "vault_list"; "vault_delete"].

(** ** The [switch] *)

Lemma tool_body_read args : tool_body "vault_read" args = handle_read args.
Proof. reflexivity. Qed.
Lemma tool_body_write args : tool_body "vault_write" args = handle_write args.
Proof. reflexivity. Qed.
Lemma tool_body_list args : tool_body "vault_list" args = handle_list args.
Proof. reflexivity. Qed.
Lemma tool_body_delete args : tool_body "vault_delete" args = handle_delete args.
Proof. reflexivity. Qed.

#[export] Hint Rewrite tool_body_read tool_body_write tool_body_list tool_body_delete : mcp_rw.

(** Any other name reaches the [default] branch. *)
Lemma tool_body_unknown name args :
  ~ In name known_tools ->
  tool_body name args = Ret (inl (ErrorObject "Error" ("Unknown tool: " ++ name))).
Proof.
  intros Hn. unfold tool_body. simpl in Hn.
  string_cases; exfalso; apply Hn; auto.
Qed.

(** With no [arguments], each known tool throws at the destructuring,
    before any request. *)
Lemma tool_body_no_args name :
  In name known_tools ->
  tool_body name None = Ret (inl (type_error
    "Cannot destructure property 'path' of 'args' as it is undefined.")).
Proof. simpl. intros [<-|[<-|[<-|[<-|[]]]]]; reflexivity. Qed.

(** ** The shape of every body *)

(** What the [try] body may produce: a thrown value, or a result with
    one text item and no [isError]. *)
Definition body_ok (r : thrown + call_result) : Prop :=
  match r with
  | inl _ => True
  | inr res => isError res = None /\ exists t, content res = [text_item t]
  end.

(** A result as the handler returns it: one text item, [isError]
    absent or [true]. *)
Definition result_shape (r : call_result) : Prop :=
  exists t, content r = [text_item t] /\ (isError r = None \/ isError r = Some true).

(** Every body either settles without a request, or awaits one request
    and then computes its result without any further event. *)
Lemma tool_body_shape (name : string) (args : option jsprops) :
  (exists r, tool_body name args = Ret r /\ body_ok r) \/
  (exists e f, tool_body name args = await_call e (fun v => Ret (f v)) /\ forall v, body_ok (f v)).
Proof.
  unfold tool_body.
  destruct (String.eqb name "vault_read"); [|destruct (String.eqb name "vault_write");
    [|destruct (String.eqb name "vault_list"); [|destruct (String.eqb name "vault_delete")]]];
    try (left; eexists; split; [reflexivity | exact I]);
    destruct args as [ps|]; try (left; eexists; split; [reflexivity | exact I]);
    right; eexists _, _; (split; [reflexivity|]); intros v; cbn;
    try (destruct (get_member v "data")); cbn; eauto.
Qed.

Lemma catch_result_shape (name : string) (r : thrown + call_result) :
  body_ok r -> result_shape (catch_result name r).
Proof.
  destruct r as [e|res]; cbn.
  - intros _. eexists. split; [reflexivity | now right].
  - intros [Hi [t Ht]]. exists t. split; [exact Ht | now left].
Qed.

(** ** The Vault client interface *)

(** What the client promises the handler: each call, on a client state,
    settles once with a new state and an outcome. *)
Class VaultClient (S : Type) : Type := {
  client_read : jsval -> S -> S * outcome;
  client_write : jsval -> jsval -> S -> S * outcome;
  client_list : jsval -> S -> S * outcome;
  client_delete : jsval -> S -> S * outcome
}.

Section WithClient.
Context {S : Type} `{VaultClient S}.

Definition answer {R} (e : vaultE R) : S -> S * R :=
  match e in vaultE R return S -> S * R with
  | VaultRead p => client_read p
  | VaultWrite p b => client_write p b
  | VaultList p => client_list p
  | VaultDelete p => client_delete p
  end.

Definition handle_vault : vaultE ~> stateT S (itree void1) :=
  fun _ e s => Ret (answer e s).

(** One [tools/call] against the client in state [s]. *)
Definition run_call (name : string) (args : option jsprops) (s : S)
    : itree void1 (S * call_result) :=
  interp_state handle_vault (call_tool name args) s.

(** *** Running the handler *)

Lemma run_ret {R} (r : R) (s : S) :
  interp_state handle_vault (Ret r) s ≈ Ret (s, r).
Proof. now rewrite interp_state_ret. Qed.

(** One awaited call: the client answers, a rejection ends the body. *)
Lemma run_await_call (e : vaultE outcome) k (s : S) :
  interp_state handle_vault (await_call e k) s ≈
  match answer e s with
  | (s', inl err) => Ret (s', inl err)
  | (s', inr v) => interp_state handle_vault (k v) s'
  end.
Proof.
  unfold await_call. rewrite interp_state_bind, interp_state_trigger. cbn.
  unfold handle_vault at 1. rewrite bind_ret_l. cbn. destruct (answer e s) as [s' [err|v]]; cbn;
    [apply run_ret | reflexivity].
Qed.

(** An awaited call settles when its continuation does. *)
Lemma await_call_settles (e : vaultE outcome) k (s : S) :
  (forall v s', exists s'' r, interp_state handle_vault (k v) s' ≈ Ret (s'', r)) ->
  exists s' r, interp_state handle_vault (await_call e k) s ≈ Ret (s', r).
Proof.
  intros Hk. destruct (answer e s) as [s' [err|v]] eqn:E.
  - exists s', (inl err). now rewrite run_await_call, E.
  - destruct (Hk v s') as (s'' & r & Hr). exists s'', r.
    now rewrite run_await_call, E.
Qed.

(** The [catch] applied to a settled body. *)
Lemma run_call_body name args (s s' : S) r :
  interp_state handle_vault (tool_body name args) s ≈ Ret (s', r) ->
  run_call name args s ≈ Ret (s', catch_result name r).
Proof.
  intros Hb. unfold run_call, call_tool.
  rewrite interp_state_bind, Hb, bind_ret_l. apply run_ret.
Qed.

(** A body that settles without any request. *)
Lemma run_call_pure name args (s : S) r :
  tool_body name args ≈ Ret r ->
  run_call name args s ≈ Ret (s, catch_result name r).
Proof.
  intros Hb. apply run_call_body. now rewrite Hb, run_ret.
Qed.

(** A body that is one awaited call followed by a pure continuation:
    the client answers once, the [catch] sees the rejection or the
    continuation's value. *)
Lemma run_call_await name args (e : vaultE outcome) (f : jsval -> thrown + call_result) (s : S) :
  tool_body name args = await_call e (fun v => Ret (f v)) ->
  run_call name args s ≈
    Ret (fst (answer e s),
         catch_result name (match snd (answer e s) with
                            | inl err => inl err
                            | inr v => f v
                            end)).
Proof.
  intros Hb. apply run_call_body. rewrite Hb, run_await_call.
  destruct (answer e s) as [s' [err|v]]; [reflexivity | apply run_ret].
Qed.

(** *** Behaviour of each tool *)

(** C4: [vault_read], answered with a value whose [data] member is [d],
    returns the pretty-printed [d] (not the whole answer), and leaves
    the client in the state the read left it. *)
Theorem read_success (ps : jsprops) (s s' : S) (res d : jsval) :
  client_read (get_prop ps "path") s = (s', inr res) ->
  get_member res "data" = inr d ->
  run_call "vault_read" (Some ps) s ≈ Ret (s', text_result (json_stringify d)).
Proof.
  intros Hc Hd. erewrite run_call_await by reflexivity. cbn [answer].
  rewrite Hc. cbn [fst snd]. now rewrite Hd.
Qed.

(** C6: [vault_list], answered with a value whose [data] member is [d],
    returns the pretty-printed [d]. *)
Theorem list_success (ps : jsprops) (s s' : S) (res d : jsval) :
  client_list (get_prop ps "path") s = (s', inr res) ->
  get_member res "data" = inr d ->
  run_call "vault_list" (Some ps) s ≈ Ret (s', text_result (json_stringify d)).
Proof.
  intros Hc Hd. erewrite run_call_await by reflexivity. cbn [answer].
  rewrite Hc. cbn [fst snd]. now rewrite Hd.
Qed.

(** C5: [vault_write] sends the data wrapped as [{ data: data }] and
    returns the pretty-printed whole answer of the client, not its
    [data] member. *)
Theorem write_success (ps : jsprops) (s s' : S) (res : jsval) :
  client_write (get_prop ps "path") (JObject [("data", get_prop ps "data")]) s = (s', inr res) ->
  run_call "vault_write" (Some ps) s ≈ Ret (s', text_result (json_stringify res)).
Proof.
  intros Hc. erewrite run_call_await by reflexivity. cbn [answer].
  now rewrite Hc.
Qed.

(** C7: [vault_delete], once the client resolves, returns the fixed
    sentence with the path converted by ToString, whatever the answer. *)
Theorem delete_success (ps : jsprops) (s s' : S) (res : jsval) :
  client_delete (get_prop ps "path") s = (s', inr res) ->
  run_call "vault_delete" (Some ps) s ≈
    Ret (s', text_result (Some ("Successfully deleted secret at path: "
                                ++ js_to_string (get_prop ps "path")))).
Proof.
  intros Hc. erewrite run_call_await by reflexivity. cbn [answer].
  now rewrite Hc.
Qed.

(** C14: a read that resolves with [undefined] (no body) fails at
    [result.data]: the TypeError is caught and rendered as an error
    result. *)
Theorem read_undefined_answer (ps : jsprops) (s s' : S) :
  client_read (get_prop ps "path") s = (s', inr JUndefined) ->
  run_call "vault_read" (Some ps) s ≈
    Ret (s', mk_result [text_item (Some ("Error executing vault_read: "
               ++ "Cannot read properties of undefined (reading 'data')"))] (Some true)).
Proof.
  intros Hc. erewrite run_call_await by reflexivity. cbn [answer].
  now rewrite Hc.
Qed.

(** Every call settles: whatever the name, the arguments and the
    client state, the handler returns a result (it never diverges and
    never escapes the [catch]). *)
Theorem run_call_total (name : string) (args : option jsprops) (s : S) :
  exists s' r, run_call name args s ≈ Ret (s', r).
Proof.
  assert (Hbody : exists s' r, interp_state handle_vault (tool_body name args) s ≈ Ret (s', r)).
  { unfold tool_body.
    destruct (String.eqb name "vault_read"); [|destruct (String.eqb name "vault_write");
      [|destruct (String.eqb name "vault_list"); [|destruct (String.eqb name "vault_delete")]]];
      try (eexists _, _; apply run_ret);
      destruct args as [ps|]; cbn [handle_read handle_write handle_list handle_delete destructure_args];
      try (eexists _, _; apply run_ret);
      apply await_call_settles; intros; eexists _, _; apply run_ret. }
  destruct Hbody as (s' & r & Hb). exists s', (catch_result name r).
  now apply run_call_body.
Qed.
Lemma run_call_det (name : string) (args : option jsprops) (s : S) (x y : S * call_result) :
  run_call name args s ≈ Ret x -> run_call name args s ≈ Ret y -> x = y.
Proof. intros Hx Hy. apply (eutt_inv_Ret (E:=void1)). now rewrite <- Hx, <- Hy. Qed.

(** C11: the type of every answer: whatever the tool name, the
    arguments and the client, a settled call returns exactly one
    content item of type [text], with [isError] absent or [true]. *)
Theorem call_result_shape (name : string) (args : option jsprops) (s s' : S) (r : call_result) :
  run_call name args s ≈ Ret (s', r) -> result_shape r.
Proof.
  intros Hr. destruct (tool_body_shape name args) as [(r0 & Hb & Hok) | (e & f & Hb & Hok)].
  - assert (Hb' : tool_body name args ≈ Ret r0) by now rewrite Hb.
    pose proof (run_call_det _ _ _ _ _ Hr (run_call_pure name args s r0 Hb')) as E.
    injection E as _ ->. now apply catch_result_shape.
  - pose proof (run_call_det _ _ _ _ _ Hr (run_call_await name args e f s Hb)) as E.
    injection E as _ ->. apply catch_result_shape.
    destruct (snd (answer e s)); [exact I | apply Hok].
Qed.
End WithClient.

(** ** Behaviour independent of the client *)

(** C3: the unknown-tool error does not escape the handler: for a name
    outside the four cases, the [throw] in the [default] branch is
    caught by the same [try], no request is sent, and the result is an
    error result naming the tool twice. *)
Theorem unknown_tool_caught (name : string) (args : option jsprops) :
  ~ In name known_tools ->
  call_tool name args ≈
    Ret (mk_result [text_item (Some ("Error executing " ++ name ++ ": Unknown tool: " ++ name))]
                   (Some true)).
Proof.
  intros Hn. unfold call_tool. rewrite tool_body_unknown by exact Hn.
  rewrite bind_ret_l. reflexivity.
Qed.

(** C13: a call of a known tool without [arguments] sends no request: it
    fails at the destructuring and returns the caught TypeError. *)
Theorem no_arguments_no_request (name : string) :
  In name known_tools ->
  call_tool name None ≈
    Ret (mk_result [text_item (Some ("Error executing " ++ name
           ++ ": Cannot destructure property 'path' of 'args' as it is undefined."))]
         (Some true)).
Proof.
  intros Hn. unfold call_tool. rewrite tool_body_no_args by exact Hn.
  rewrite bind_ret_l. reflexivity.
Qed.

End Dispatcher.
