(* ===== verification/MemVault.v ===== *)
(** * MemVault: an in-memory Vault client

    The theorems of [Dispatcher.v], [Contract.v] and [Server.v] hold for
    every instance of the [VaultClient] interface.  This file gives one
    concrete instance, used to run the handler on concrete requests and
    to instantiate those theorems: a store of secrets keyed by path that
    answers in the way of a key-value engine of version 2 (a read
    resolves with [{ data: <stored body> }], a write stores the body and
    resolves with [{ data: { version: n } }], a list resolves with
    [{ data: { keys: [...] } }], a delete resolves with [undefined]) and
    rejects with an [Error] whose message is Vault's status line when
    the path is absent or is not a string.  It is a test double for the
    Vault server, which is outside the repository; it models no line of
    [src/]. *)

From Stdlib Require Import String Ascii ZArith List Bool.
From ITree Require Import ITree ITreeFacts Events.State Events.StateFacts.
From S2P Require Import Prelude JsValue JsonStringify Dispatcher.
Import ListNotations.
Import JsValue JsonStringify Dispatcher.
Open Scope string_scope.

Module MemVault.

(** Stored bodies by path, with the number of writes to each path. *)
Record store : Type := mk_store { secrets : list (string * jsval); versions : list (string * Z) }.

Definition empty_store : store := mk_store [] [].

Definition not_found : thrown := ErrorObject "Error" "Status 404".
Definition bad_path : thrown := ErrorObject "Error" "Status 405".

Fixpoint remove_key {A} (k : string) (l : list (string * A)) : list (string * A) :=
  match l with
  | [] => []
  | (k', v) :: l' => if String.eqb k k' then remove_key k l' else (k', v) :: remove_key k l'
  end.

Definition version_of (k : string) (st : store) : Z :=
  match assoc_lookup k (versions st) with Some n => n | None => 0%Z end.

Definition mem_read (p : jsval) (st : store) : store * outcome :=
  match p with
  | JString k =>
      match assoc_lookup k (secrets st) with
      | Some body => (st, inr (JObject [("data", body)]))
      | None => (st, inl not_found)
      end
  | _ => (st, inl bad_path)
  end.

Definition mem_write (p body : jsval) (st : store) : store * outcome :=
  match p with
  | JString k =>
      let n := (version_of k st + 1)%Z in
      (mk_store ((k, body) :: remove_key k (secrets st)) ((k, n) :: remove_key k (versions st)),
       inr (JObject [("data", JObject [("version", JNumber n)])]))
  | _ => (st, inl bad_path)
  end.

(** The keys stored under [k ++ "/"], relative to it. *)
Definition mem_list (p : jsval) (st : store) : store * outcome :=
  match p with
  | JString k =>
      let pre := k ++ "/" in
      let ks := List.map (fun kv => substring (String.length pre) (String.length (fst kv)) (fst kv))
                    (List.filter (fun kv => String.prefix pre (fst kv)) (secrets st)) in
      match ks with
      | [] => (st, inl not_found)
      | _ => (st, inr (JObject [("data", JObject [("keys", JArray (List.map JString ks))])]))
      end
  | _ => (st, inl bad_path)
  end.

Definition mem_delete (p : jsval) (st : store) : store * outcome :=
  match p with
  | JString k => (mk_store (remove_key k (secrets st)) (versions st), inr JUndefined)
  | _ => (st, inl bad_path)
  end.

#[export] Instance mem_client : VaultClient store := {
  client_read := mem_read;
  client_write := mem_write;
  client_list := mem_list;
  client_delete := mem_delete
}.

(** ** A scripted client *)

(** A client that answers each call, whatever it is, with the next
    outcome of a script, and rejects once the script is exhausted. *)
Definition no_answer : thrown := ErrorObject "Error" "socket hang up".

Definition pop (q : list outcome) : list outcome * outcome :=
  match q with
  | [] => ([], inl no_answer)
  | o :: q' => (q', o)
  end.

#[export] Instance scripted_client : VaultClient (list outcome) := {
  client_read _ := pop;
  client_write _ _ := pop;
  client_list _ := pop;
  client_delete _ := pop
}.

(** ** Concrete runs *)

Definition app_path : string := "secret/data/app".
Definition app_args : jsprops := [("path", JString app_path)].
Definition kv : jsval := JObject [("k", JString "v")].
Definition app_store : store := mk_store [(app_path, kv)] [(app_path, 1%Z)].

Lemma mem_read_hit k body st :
  assoc_lookup k (secrets st) = Some body ->
  mem_read (JString k) st = (st, inr (JObject [("data", body)])).
Proof. intros H. simpl. now rewrite H. Qed.

(** C26: end to end through the tools: after [vault_write] of [d] at a
    path, [vault_read] of the same path returns [{ data: d }]
    pretty-printed: the envelope the write added is part of what the
    read shows, one level under the answer's [data]. *)
Theorem write_then_read (k : string) (d : jsval) (st : store) :
  exists st1 r1,
    run_call "vault_write" (Some [("path", JString k); ("data", d)]) st ≈ Ret (st1, r1) /\
    run_call "vault_read" (Some [("path", JString k)]) st1 ≈
      Ret (st1, text_result (json_stringify (JObject [("data", d)]))).
Proof.
  eexists _, _. split; [erewrite run_call_await by reflexivity; reflexivity|].
  erewrite run_call_await by reflexivity. cbn [answer client_read mem_client fst snd].
  rewrite (mem_read_hit k (JObject [("data", d)])).
  - reflexivity.
  - simpl. now rewrite String.eqb_refl.
Qed.

(** ** Witnesses *)

Lemma read_success_witness :
  client_read (get_prop app_args "path") app_store = (app_store, inr (JObject [("data", kv)])) /\
  get_member (JObject [("data", kv)]) "data" = inr kv /\
  run_call "vault_read" (Some app_args) app_store ≈ Ret (app_store, text_result (json_stringify kv)).
Proof.
  split; [reflexivity|]. split; [reflexivity|].
  apply (read_success app_args app_store app_store (JObject [("data", kv)]) kv); reflexivity.
Defined.

Lemma list_success_witness :
  client_list (get_prop [("path", JString "secret")] "path") app_store =
    (app_store, inr (JObject [("data", JObject [("keys", JArray [JString "data/app"])])])) /\
  get_member (JObject [("data", JObject [("keys", JArray [JString "data/app"])])]) "data" =
    inr (JObject [("keys", JArray [JString "data/app"])]) /\
  run_call "vault_list" (Some [("path", JString "secret")]) app_store ≈
    Ret (app_store, text_result (json_stringify (JObject [("keys", JArray [JString "data/app"])]))).
Proof.
  split; [reflexivity|]. split; [reflexivity|].
  apply (list_success [("path", JString "secret")] app_store app_store
           (JObject [("data", JObject [("keys", JArray [JString "data/app"])])])
           (JObject [("keys", JArray [JString "data/app"])])); reflexivity.
Defined.

Lemma write_success_witness :
  client_write (get_prop [("path", JString app_path); ("data", kv)] "path")
               (JObject [("data", get_prop [("path", JString app_path); ("data", kv)] "data")])
               empty_store =
    (mk_store [(app_path, JObject [("data", kv)])] [(app_path, 1%Z)],
     inr (JObject [("data", JObject [("version", JNumber 1)])])) /\
  run_call "vault_write" (Some [("path", JString app_path); ("data", kv)]) empty_store ≈
    Ret (mk_store [(app_path, JObject [("data", kv)])] [(app_path, 1%Z)],
         text_result (json_stringify (JObject [("data", JObject [("version", JNumber 1)])]))).
Proof.
  split; [reflexivity|].
  apply (write_success [("path", JString app_path); ("data", kv)] empty_store _ _); reflexivity.
Defined.

Lemma delete_success_witness :
  client_delete (get_prop app_args "path") app_store = (mk_store [] [(app_path, 1%Z)], inr JUndefined) /\
  run_call "vault_delete" (Some app_args) app_store ≈
    Ret (mk_store [] [(app_path, 1%Z)],
         text_result (Some ("Successfully deleted secret at path: " ++ js_to_string (get_prop app_args "path")))).
Proof.
  split; [reflexivity|].
  apply (delete_success app_args app_store _ JUndefined); reflexivity.
Defined.

Lemma read_undefined_answer_witness :
  client_read (get_prop app_args "path") [inr JUndefined] = ([], inr JUndefined) /\
  run_call "vault_read" (Some app_args) [inr JUndefined] ≈
    Ret ([], mk_result [text_item (Some ("Error executing vault_read: "
               ++ "Cannot read properties of undefined (reading 'data')"))] (Some true)).
Proof.
  split; [reflexivity|].
  apply (read_undefined_answer app_args [inr JUndefined] []); reflexivity.
Defined.

Lemma unknown_tool_caught_witness :
  ~ In "vault_rename" known_tools /\
  call_tool "vault_rename" (Some app_args) ≈
    Ret (mk_result [text_item (Some ("Error executing " ++ "vault_rename" ++ ": Unknown tool: "
                                     ++ "vault_rename"))] (Some true)).
Proof.
  assert (H : ~ In "vault_rename" known_tools) by (simpl; intuition discriminate).
  split; [exact H | exact (unknown_tool_caught "vault_rename" (Some app_args) H)].
Defined.

Lemma no_arguments_no_request_witness :
  In "vault_delete" known_tools /\
  call_tool "vault_delete" None ≈
    Ret (mk_result [text_item (Some ("Error executing " ++ "vault_delete"
           ++ ": Cannot destructure property 'path' of 'args' as it is undefined."))]
         (Some true)).
Proof.
  assert (H : In "vault_delete" known_tools) by (simpl; tauto).
  split; [exact H | exact (no_arguments_no_request "vault_delete" H)].
Defined.

Lemma call_result_shape_witness :
  run_call "vault_read" (Some app_args) app_store ≈ Ret (app_store, text_result (json_stringify kv)) /\
  result_shape (text_result (json_stringify kv)).
Proof.
  assert (H : run_call "vault_read" (Some app_args) app_store ≈
                Ret (app_store, text_result (json_stringify kv)))
    by (erewrite run_call_await by reflexivity; reflexivity).
  split; [exact H|].
  exact (call_result_shape "vault_read" (Some app_args) app_store app_store _ H).
Defined.

End MemVault.
