(* ===== verification/Tools.v ===== *)
(** * Tools: the tool catalog and the [tools/list] handler

    [TOOLS] (index.ts lines 29-91) is a constant array of four tool
    descriptors, each with a name, a description and a JSON-Schema
    [inputSchema] of type ["object"] listing the properties and the
    required ones.  The [tools/list] handler (lines 106-111) answers
    [{ tools: TOOLS }].

    [conforms] is what the declared schema means: an arguments object
    conforms when every required property is present and every declared
    property that is present has the declared JSON type.  The server
    never runs this check (the arguments reach the Vault client
    unvalidated); it is used to state what the tools do on the
    arguments their schemas advertise. *)

From Stdlib Require Import String Ascii List Bool.
From S2P Require Import Prelude JsValue.
Import ListNotations.
Import JsValue.
Open Scope string_scope.

Module Tools.

(** ** Descriptors *)

Record prop_schema : Type := mk_prop { prop_type : string; prop_description : string }.

Record input_schema : Type := mk_schema {
  schema_type : string;
  properties : list (string * prop_schema);
  required : list string
}.

Record tool : Type := mk_tool {
  name : string;
  description : string;
  inputSchema : input_schema
}.

(** The [TOOLS] array, in its order. *)
Definition TOOLS : list tool := [
  mk_tool "vault_read" "Read a secret from Vault at the specified path"
    (mk_schema "object"
       [("path", mk_prop "string" "The path to read the secret from (e.g., 'secret/data/myapp')")]
       ["path"]);
  mk_tool "vault_write" "Write a secret to Vault at the specified path"
    (mk_schema "object"
       [("path", mk_prop "string" "The path to write the secret to (e.g., 'secret/data/myapp')");
        ("data", mk_prop "object" "The secret data to write as a JSON object")]
       ["path"; "data"]);
  mk_tool "vault_list" "List secrets at the specified path in Vault"
    (mk_schema "object"
       [("path", mk_prop "string" "The path to list secrets from (e.g., 'secret/metadata')")]
       ["path"]);
  mk_tool "vault_delete" "Delete a secret from Vault at the specified path"
    (mk_schema "object"
       [("path", mk_prop "string" "The path to delete the secret from (e.g., 'secret/data/myapp')")]
       ["path"])
].

(** The [tools/list] answer [{ tools: TOOLS }]. *)
Record list_tools_result : Type := mk_list_result { tools : list tool }.

Definition list_tools : list_tools_result := mk_list_result TOOLS.

(** The descriptor a name denotes, if any. *)
Definition find_tool (n : string) : option tool :=
  find (fun t => String.eqb (name t) n) TOOLS.

(** ** What a schema means *)

(** JSON-Schema [type] keywords for the value kinds. *)
Definition has_json_type (ty : string) (v : jsval) : bool :=
  match v with
  | JString _ => String.eqb ty "string"
  | JObject _ => String.eqb ty "object"
  | JArray _ => String.eqb ty "array"
  | JNumber _ => String.eqb ty "number" || String.eqb ty "integer"
  | JBool _ => String.eqb ty "boolean"
  | JNull => String.eqb ty "null"
  | JUndefined => false
  end.

Definition present (ps : jsprops) (k : string) : bool :=
  match assoc_lookup k ps with
  | Some _ => true
  | None => false
  end.

Definition conforms (sch : input_schema) (ps : jsprops) : bool :=
  forallb (present ps) (required sch)
  && forallb (fun kp => match assoc_lookup (fst kp) ps with
                        | Some v => has_json_type (prop_type (snd kp)) v
                        | None => true
                        end) (properties sch).

(** ** Properties *)

Lemma find_tool_In n t : find_tool n = Some t -> In t TOOLS /\ name t = n.
Proof.
  unfold find_tool. intros H. apply find_some in H as [Hin Heq].
  split; [exact Hin | now apply String.eqb_eq].
Qed.

Lemma has_json_type_string v : has_json_type "string" v = true -> exists p, v = JString p.
Proof. destruct v; simpl; try discriminate; eauto. Qed.

(** C24: every tool of the catalog declares [path] as a required string:
    arguments that conform to the advertised schema of a tool carry a
    string [path]. *)
Theorem conforms_path_string (n : string) (t : tool) (ps : jsprops) :
  find_tool n = Some t -> conforms (inputSchema t) ps = true ->
  exists p, get_prop ps "path" = JString p.
Proof.
  intros Hf Hc. apply find_tool_In in Hf as [Hin _].
  unfold conforms in Hc. apply andb_prop in Hc as [Hreq Hty].
  simpl in Hin. destruct Hin as [<-|[<-|[<-|[<-|[]]]]]; simpl in Hreq, Hty;
    unfold present, get_prop in *;
    destruct (assoc_lookup "path" ps) as [v|]; try discriminate;
    apply has_json_type_string; now destruct (has_json_type "string" v).
Qed.

(** A conforming arguments object, for the witnesses. *)
Lemma conforms_path_string_witness :
  find_tool "vault_write" = Some (nth 1 TOOLS (mk_tool "" "" (mk_schema "" [] []))) /\
  conforms (inputSchema (nth 1 TOOLS (mk_tool "" "" (mk_schema "" [] []))))
           [("path", JString "secret/data/app"); ("data", JObject [])] = true /\
  exists p, get_prop [("path", JString "secret/data/app"); ("data", JObject [])] "path" = JString p.
Proof.
  split; [reflexivity|]. split; [reflexivity|].
  apply (conforms_path_string "vault_write" (nth 1 TOOLS (mk_tool "" "" (mk_schema "" [] []))));
    reflexivity.
Defined.

End Tools.
