(* ===== verification/Contract.v ===== *)
(** * Contract: the dispatcher against the specification's contract

    The specification (its sections 4.1, 6 and 7) describes [call_tool]
    abstractly: a known tool name selects one of four tool kinds; the
    handler extracts [path] (and [data]), performs one backend
    operation (the write wrapped as [{ data }]), and returns either
    [Success] with one text item (the [data] member of the answer for
    read and list, the whole answer for write, a fixed sentence for
    delete) or [Failure] with the text [Error executing <tool>: <msg>].

    This file states that contract as data ([tool_kind], [request],
    [invocation_result], [spec_request], [spec_render]), relates the
    handler's concrete result to it by the abstraction [abs_result],
    and proves the refinement: against every [VaultClient], a known tool
    called with an arguments object sends the request of the contract
    and answers what the contract prescribes, whenever the contract
    prescribes something.  A recording client, an instance of the same
    interface, shows that the request is sent exactly once. *)

From Stdlib Require Import String Ascii ZArith List Bool.
From ITree Require Import ITree ITreeFacts Events.State Events.StateFacts.
From S2P Require Import Prelude JsValue JsonStringify JsonParse Dispatcher MemVault Tools.
Import ListNotations.
Import JsValue JsonStringify JsonParse Dispatcher MemVault Tools.
Open Scope string_scope.

Module Contract.

(** ** The contract *)

(** The four tool kinds of the specification's catalog. *)
Inductive tool_kind : Type := KRead | KWrite | KList | KDelete.

Definition tool_kind_of (n : string) : option tool_kind :=
  if String.eqb n "vault_read" then Some KRead
  else if String.eqb n "vault_write" then Some KWrite
  else if String.eqb n "vault_list" then Some KList
  else if String.eqb n "vault_delete" then Some KDelete
  else None.

(** A backend operation with its arguments. *)
Inductive request : Type :=
| RRead (path : jsval)
| RWrite (path body : jsval)
| RList (path : jsval)
| RDelete (path : jsval).

Definition request_event (r : request) : vaultE outcome :=
  match r with
  | RRead p => VaultRead p
  | RWrite p b => VaultWrite p b
  | RList p => VaultList p
  | RDelete p => VaultDelete p
  end.

(** The operation each tool performs on its extracted arguments; the
    write sends [{ data: data }], never the bare data. *)
Definition spec_request (k : tool_kind) (ps : jsprops) : request :=
  match k with
  | KRead => RRead (get_prop ps "path")
  | KWrite => RWrite (get_prop ps "path") (JObject [("data", get_prop ps "data")])
  | KList => RList (get_prop ps "path")
  | KDelete => RDelete (get_prop ps "path")
  end.

(** The specification's Invocation Result: the texts of its items. *)
Inductive invocation_result : Type :=
| Success (texts : list string)
| Failure (texts : list string).

Definition success_text (t : option string) : option invocation_result :=
  match t with
  | Some t => Some (Success [t])
  | None => None
  end.

(** What the contract prescribes for tool [n] of kind [k], whose path
    argument is the string [path], once the backend settled with [o];
    [None] where the contract says nothing (an answer without a
    serializable [data] member). *)
Definition spec_render (k : tool_kind) (n path : string) (o : outcome) : option invocation_result :=
  match o with
  | inl e => Some (Failure ["Error executing " ++ n ++ ": " ++ error_message e])
  | inr payload =>
      match k with
      | KRead | KList =>
          match payload with
          | JObject rs => success_text (json_stringify (get_prop rs "data"))
          | _ => None
          end
      | KWrite => success_text (json_stringify payload)
      | KDelete => Some (Success ["Successfully deleted secret at path: " ++ path])
      end
  end.

(** The value whose JSON text the contract prescribes for a resolved
    answer: the [data] member for read and list, the whole answer for
    write; delete renders no value. *)
Definition rendered_value (k : tool_kind) (payload : jsval) : option jsval :=
  match k, payload with
  | (KRead | KList), JObject rs => Some (get_prop rs "data")
  | KWrite, _ => Some payload
  | _, _ => None
  end.

(** ** Abstraction of the handler's results *)

Definition abs_item (i : content_item) : option string :=
  if String.eqb (item_type i) "text" then item_text i else None.

Fixpoint abs_items (l : list content_item) : option (list string) :=
  match l with
  | [] => Some []
  | i :: l' =>
      match abs_item i, abs_items l' with
      | Some t, Some ts => Some (t :: ts)
      | _, _ => None
      end
  end.

(** A result without [isError] is a Success, one with [isError: true] a
    Failure; a text that is not a string has no abstract counterpart. *)
Definition abs_result (r : call_result) : option invocation_result :=
  match isError r, abs_items (content r) with
  | None, Some ts => Some (Success ts)
  | Some true, Some ts => Some (Failure ts)
  | _, _ => None
  end.

(** ** The tool names *)

Definition kind_name (k : tool_kind) : string :=
  match k with
  | KRead => "vault_read"
  | KWrite => "vault_write"
  | KList => "vault_list"
  | KDelete => "vault_delete"
  end.

Lemma tool_kind_of_name n k : tool_kind_of n = Some k -> n = kind_name k.
Proof.
  unfold tool_kind_of. string_cases; intros H; try discriminate.
  all: injection H as <-; reflexivity.
Qed.

Lemma tool_kind_of_known n : tool_kind_of n = None <-> ~ In n known_tools.
Proof.
  unfold tool_kind_of. simpl.
  string_cases; split; intros H; try discriminate; try tauto.
  intros [|[|[|[|[]]]]]; congruence.
Qed.

(** ** Refinement *)

Section Refinement.
Context {S : Type} `{VaultClient S}.

(** C1: refinement of the specification's contract: for a known tool
    called with an arguments object whose [path] is a string, the
    handler sends the contract's request (once, with the client in
    state [s]) and its result, read abstractly, is the one the
    contract prescribes for the client's answer, whenever the contract
    prescribes one. *)
Theorem call_tool_refines (n p : string) (k : tool_kind) (ps : jsprops)
    (s s' : S) (o : outcome) (sr : invocation_result) :
  tool_kind_of n = Some k ->
  get_prop ps "path" = JString p ->
  answer (request_event (spec_request k ps)) s = (s', o) ->
  spec_render k n p o = Some sr ->
  exists r, run_call n (Some ps) s ≈ Ret (s', r) /\ abs_result r = Some sr.
Proof.
  intros Hk Hp Ha Hs. apply tool_kind_of_name in Hk as ->.
  destruct k; cbn [request_event spec_request] in Ha;
    (eexists; split;
     [erewrite run_call_await by reflexivity; rewrite Ha; reflexivity |]);
    cbn [fst snd]; destruct o as [e|v]; cbn [spec_render] in Hs;
    try (injection Hs as <-; reflexivity).
  - destruct v; try discriminate. cbn [get_member].
    destruct (json_stringify _); simpl in Hs; [now injection Hs as <- | discriminate].
  - destruct (json_stringify v); simpl in Hs; [now injection Hs as <- | discriminate].
  - destruct v; try discriminate. cbn [get_member].
    destruct (json_stringify _); simpl in Hs; [now injection Hs as <- | discriminate].
  - rewrite Hp in *. now injection Hs as <-.
Qed.
(** A known tool whose request the client rejects with [e]. *)
Lemma run_rejected (n : string) (k : tool_kind) (ps : jsprops) (s s' : S) (e : thrown) :
  tool_kind_of n = Some k ->
  answer (request_event (spec_request k ps)) s = (s', inl e) ->
  run_call n (Some ps) s ≈
    Ret (s', mk_result [text_item (Some ("Error executing " ++ n ++ ": " ++ error_message e))]
                       (Some true)).
Proof.
  intros Hk Ha. apply tool_kind_of_name in Hk as ->.
  destruct k; cbn [request_event spec_request] in Ha;
    erewrite run_call_await by reflexivity; now rewrite Ha.
Qed.

(** C8: the text of a failure ends with what was thrown: the [message]
    of an [Error] (its [name], such as [TypeError], is not shown) and
    [String(v)] of any other rejected value. *)
Theorem failure_text (n : string) (k : tool_kind) (ps : jsprops) (s s' : S) (e : thrown) :
  tool_kind_of n = Some k ->
  answer (request_event (spec_request k ps)) s = (s', inl e) ->
  run_call n (Some ps) s ≈
    Ret (s', mk_result [text_item (Some ("Error executing " ++ n ++ ": " ++
                                         match e with
                                         | ErrorObject _ m => m
                                         | ThrownValue v => js_to_string v
                                         end))] (Some true)).
Proof. intros Hk Ha. rewrite (run_rejected n k ps s s' e Hk Ha). now destruct e. Qed.

(** C10: what a client of the server reads back: when read, list or
    write succeeds and the value the contract renders is JSON data
    (no [undefined] inside, distinct keys), the result is one text item
    and [JSON.parse] of that text is exactly that value. *)
Theorem success_text_parses (n : string) (k : tool_kind) (ps : jsprops)
    (s s' : S) (payload v : jsval) :
  tool_kind_of n = Some k ->
  answer (request_event (spec_request k ps)) s = (s', inr payload) ->
  rendered_value k payload = Some v -> json_data v = true -> keys_wf v = true ->
  exists t, run_call n (Some ps) s ≈ Ret (s', text_result (Some t)) /\ json_parse t = Some v.
Proof.
  intros Hk Ha Hv Hj Hwf. apply tool_kind_of_name in Hk as ->.
  destruct (json_stringify v) as [t|] eqn:Ht;
    [|apply serialize_None in Ht; subst v; discriminate Hj].
  exists t. split.
  - destruct k; cbn [request_event spec_request] in Ha;
      erewrite run_call_await by reflexivity; rewrite Ha; cbn [fst snd];
      cbn [rendered_value] in Hv; try discriminate Hv;
      [destruct payload; try discriminate Hv; injection Hv as <- .. | injection Hv as <- |
       destruct payload; try discriminate Hv; injection Hv as <-];
      cbn [get_member]; now rewrite Ht.
  - rewrite (json_parse_stringified v t Hwf Ht). now rewrite normalize_json_data.
Qed.
End Refinement.

(** ** Requests actually sent *)

Section Recording.
(** The backend's answers, as a function of the request. *)
Variable oracle : request -> outcome.

(** A client that logs every request it receives. *)
#[local] Instance recording_client : VaultClient (list request) := {
  client_read p log := ((log ++ [RRead p])%list, oracle (RRead p));
  client_write p b log := ((log ++ [RWrite p b])%list, oracle (RWrite p b));
  client_list p log := ((log ++ [RList p])%list, oracle (RList p));
  client_delete p log := ((log ++ [RDelete p])%list, oracle (RDelete p))
}.

(** C2: one request per call, and only for a known tool with
    arguments: a call appends to the log exactly the contract's
    request when the name is one of the four tools and the request
    carries an arguments object, and nothing otherwise (no retry, no
    second operation, no request for an unknown tool). *)
Theorem requests_sent (n : string) (args : option jsprops) (log : list request) :
  exists r, run_call n args log ≈
    Ret ((log ++ match tool_kind_of n, args with
                 | Some k, Some ps => [spec_request k ps]
                 | _, _ => []
                 end)%list, r).
Proof.
  destruct (tool_kind_of n) as [k|] eqn:Hk.
  - apply tool_kind_of_name in Hk as ->. destruct args as [ps|].
    + destruct k; eexists; erewrite run_call_await by reflexivity; reflexivity.
    + rewrite app_nil_r. eexists. apply run_call_pure.
      rewrite tool_body_no_args; [reflexivity|]. destruct k; simpl; tauto.
  - rewrite app_nil_r. eexists. apply run_call_pure.
    rewrite tool_body_unknown; [reflexivity|]. now apply tool_kind_of_known.
Qed.
End Recording.

(** ** The catalog and the switch *)

(** A body that awaits a request never is an immediate result. *)
Lemma await_call_not_ret (e : vaultE outcome) (k : jsval -> itree vaultE (thrown + call_result))
    (r : thrown + call_result) :
  ~ (await_call e k ≈ Ret r).
Proof.
  unfold await_call. intros H.
  apply eutt_inv_bind_ret in H as (a & Ha & _). apply eqit_inv in Ha. exact Ha.
Qed.

(** C15: the tools [tools/list] advertises are exactly the names the
    [tools/call] switch dispatches: a name has a descriptor in [TOOLS]
    if and only if, for every arguments object, the [switch] of
    [tool_body] selects a case that awaits a request of the client
    (rather than the default, which throws [Unknown tool]). *)
Theorem catalog_matches_switch (n : string) :
  (exists t, find_tool n = Some t) <->
  forall ps, exists e k, tool_body n (Some ps) = await_call e k.
Proof.
  split.
  - intros (t & Hf) ps. apply find_tool_In in Hf as [Hin <-].
    simpl in Hin. destruct Hin as [<-|[<-|[<-|[<-|[]]]]]; do 2 eexists; reflexivity.
  - intros H. destruct (H []) as (e & k & Hb).
    destruct (tool_kind_of n) as [kd|] eqn:Hk.
    + apply tool_kind_of_name in Hk as ->.
      destruct kd; eexists; reflexivity.
    + apply tool_kind_of_known in Hk. rewrite tool_body_unknown in Hb by exact Hk.
      exfalso. apply (await_call_not_ret e k (inl (ErrorObject "Error" ("Unknown tool: " ++ n)))).
      now rewrite <- Hb.
Qed.

(** ** Witnesses *)

Definition read_text : string :=
  "{" ++ nl ++ "  " ++ dq ++ "k" ++ dq ++ ": " ++ dq ++ "v" ++ dq ++ nl ++ "}".

Lemma call_tool_refines_witness :
  tool_kind_of "vault_read" = Some KRead /\
  get_prop app_args "path" = JString app_path /\
  answer (request_event (spec_request KRead app_args)) app_store =
    (app_store, inr (JObject [("data", kv)])) /\
  spec_render KRead "vault_read" app_path (inr (JObject [("data", kv)])) = Some (Success [read_text]) /\
  exists r, run_call "vault_read" (Some app_args) app_store ≈ Ret (app_store, r) /\
            abs_result r = Some (Success [read_text]).
Proof.
  do 4 (split; [reflexivity|]).
  apply (call_tool_refines "vault_read" app_path KRead app_args app_store app_store
           (inr (JObject [("data", kv)]))); reflexivity.
Defined.

Lemma success_text_parses_witness :
  tool_kind_of "vault_read" = Some KRead /\
  answer (request_event (spec_request KRead app_args)) app_store =
    (app_store, inr (JObject [("data", kv)])) /\
  rendered_value KRead (JObject [("data", kv)]) = Some kv /\
  json_data kv = true /\ keys_wf kv = true /\
  exists t, run_call "vault_read" (Some app_args) app_store ≈ Ret (app_store, text_result (Some t)) /\
            json_parse t = Some kv.
Proof.
  do 5 (split; [reflexivity|]).
  apply (success_text_parses "vault_read" KRead app_args app_store app_store
           (JObject [("data", kv)]) kv); reflexivity.
Defined.

Lemma failure_text_witness :
  tool_kind_of "vault_list" = Some KList /\
  answer (request_event (spec_request KList app_args)) [inl (ThrownValue JUndefined)] =
    ([], inl (ThrownValue JUndefined)) /\
  run_call "vault_list" (Some app_args) [inl (ThrownValue JUndefined)] ≈
    Ret ([], mk_result [text_item (Some ("Error executing " ++ "vault_list" ++ ": " ++ "undefined"))]
                       (Some true)).
Proof.
  do 2 (split; [reflexivity|]).
  exact (failure_text "vault_list" KList app_args [inl (ThrownValue JUndefined)] []
           (ThrownValue JUndefined) eq_refl eq_refl).
Defined.

End Contract.
