(* ===== verification/Concurrency.v ===== *)
(** * Concurrency: pipelined [tools/call] invocations

    Section 5 of the specification allows the transport to pipeline
    several [tools/call] requests: the handler of [src/src/index.ts]
    (lines 113-187) imposes no serialization, and each invocation is
    suspended only at its one [await] of the Vault client.  This file
    gives the interleaving semantics of a pool of invocations on one
    shared client: [cstep] lets any unfinished invocation take its next
    step, and the step of an invocation suspended on its request is the
    client serving that request ([answer]), atomically, in the client
    state of that moment.  The theorem: every run that finishes is a
    serial run of the same calls in the order the client served them
    ([concurrent_calls_serializable]), by rule induction on [cstep]
    with the invariant [pool_inv].  The witness runs a read racing a
    delete of the same secret. *)

From Stdlib Require Import String List Bool ZArith Lia Permutation.
From ITree Require Import ITree ITreeFacts Events.State Events.StateFacts.
From S2P Require Import Prelude JsValue JsonStringify Dispatcher MemVault.
Import ListNotations.
Import JsValue JsonStringify Dispatcher MemVault.
Open Scope string_scope.

Module Concurrency.

(** A [tools/call] request: the tool name and its [arguments]. *)
Definition call : Type := (string * option jsprops)%type.

(** One in-flight invocation of the handler. *)
Definition thread : Type := itree vaultE call_result.

Definition start (c : call) : thread := call_tool (fst c) (snd c).

Section WithClient.
Context {S : Type} `{VaultClient S}.

(** ** Interleaving semantics *)

(** The next step of one invocation in client state [s]: a silent step,
    or the client serving the request the invocation awaits; [None]
    when the invocation has returned. *)
Definition next (t : thread) (s : S) : option (S * thread) :=
  match observe t with
  | RetF _ => None
  | TauF t' => Some (s, t')
  | VisF e k => let (s', x) := answer e s in Some (s', k x)
  end.

(** Any unfinished invocation of the pool may step. *)
Inductive cstep : S * list thread -> S * list thread -> Prop :=
| cstep_thread s s' ts1 t t' ts2 :
    next t s = Some (s', t') ->
    cstep (s, (ts1 ++ t :: ts2)%list) (s', (ts1 ++ t' :: ts2)%list).

Inductive star {A : Type} (R : A -> A -> Prop) : A -> A -> Prop :=
| star_refl a : star R a a
| star_step a b c : R a b -> star R b c -> star R a c.

Lemma star_snoc {A : Type} (R : A -> A -> Prop) (a b c : A) :
  star R a b -> R b c -> star R a c.
Proof.
  induction 1 as [a|a b' b Hab _ IH]; intros Hc.
  - eapply star_step; [exact Hc | apply star_refl].
  - eapply star_step; [exact Hab | exact (IH Hc)].
Qed.

(** An invocation that has returned [r]. *)
Definition finished (t : thread) (r : call_result) : Prop := observe t = RetF r.

(** The calls run one after the other from [s0]: the calls of
    [order], each with its result, end in state [s]. *)
Inductive seq_runs (s0 : S) : list (call * call_result) -> S -> Prop :=
| seq_nil : seq_runs s0 [] s0
| seq_snoc order s c r s' :
    seq_runs s0 order s ->
    run_call (fst c) (snd c) s ≈ Ret (s', r) ->
    seq_runs s0 (order ++ [(c, r)])%list s'.

(** ** One invocation, step by step *)

Lemma next_finished (t : thread) (r : call_result) (s : S) : finished t r -> next t s = None.
Proof. unfold finished, next. now intros ->. Qed.

(** An invocation that returned without a request has no effect on the
    client. *)
Lemma start_finished_run (c : call) (r : call_result) (s : S) :
  finished (start c) r -> run_call (fst c) (snd c) s ≈ Ret (s, r).
Proof.
  unfold finished, start, run_call. intros Hr.
  rewrite (itree_eta (call_tool _ _)), Hr. apply run_ret.
Qed.

(** The first step of an invocation is the client serving its request;
    the invocation has then returned the result of the serial run. *)
Lemma next_start (c : call) (s s' : S) (t' : thread) :
  next (start c) s = Some (s', t') ->
  exists r, finished t' r /\ run_call (fst c) (snd c) s ≈ Ret (s', r).
Proof.
  destruct c as [name args]. unfold start. cbn [fst snd].
  destruct (tool_body_shape name args) as [(r & Hr & _) | (e & f & Hb & _)];
    unfold next, call_tool; rewrite ?Hr, ?Hb.
  - discriminate.
  - intros Hn. cbn in Hn.
    destruct (answer e s) as [s1 [err|v]] eqn:Ha; injection Hn as <- <-;
      (eexists; split; [idtac | rewrite (run_call_await name args e f s Hb), Ha; reflexivity];
       unfold finished; cbn; reflexivity).
Qed.

(** ** The invariant of a pool started with the calls [cs] *)

(** Each invocation is at its start, or has returned. *)
Definition status_ok (x : call * thread * option call_result) : Prop :=
  match x with
  | (c, t, None) => t = start c
  | (c, t, Some r) => finished t r
  end.

(** The calls whose request the client has served, with their results. *)
Definition served (info : list (call * thread * option call_result)) : list (call * call_result) :=
  flat_map (fun x => match x with
                     | (c, _, Some r) => [(c, r)]
                     | (_, _, None) => []
                     end) info.

(** In a pool started with [cs] from [s0], the served calls, taken in
    some order, run serially from [s0] to the current client state with
    the results their invocations returned. *)
Definition pool_inv (s0 : S) (cs : list call) (p : S * list thread) : Prop :=
  exists info,
    List.map (fun x => fst (fst x)) info = cs /\ List.map (fun x => snd (fst x)) info = snd p /\
    Forall status_ok info /\
    exists order, seq_runs s0 order (fst p) /\ Permutation order (served info).

Lemma pool_inv_init (s0 : S) (cs : list call) : pool_inv s0 cs (s0, List.map start cs).
Proof.
  exists (List.map (fun c => (c, start c, None)) cs). rewrite !List.map_map. cbn.
  split; [apply map_id|]. split; [reflexivity|]. split.
  - apply Forall_forall. intros x Hx. apply in_map_iff in Hx as (c & <- & _). reflexivity.
  - exists []. split; [constructor|]. unfold served.
    induction cs as [|c cs IH]; [constructor | exact IH].
Qed.

Lemma pool_inv_step (s0 : S) (cs : list call) (p p' : S * list thread) :
  pool_inv s0 cs p -> cstep p p' -> pool_inv s0 cs p'.
Proof.
  intros (info & Hc & Ht & Hok & order & Hseq & Hperm) Hstep.
  destruct Hstep as [s s' ts1 t t' ts2 Hnext]. cbn [fst snd] in *.
  apply map_eq_app in Ht as (i1 & i2' & -> & Hi1 & Hi2').
  apply map_eq_cons in Hi2' as (x & i2 & -> & Hx & Hi2).
  destruct x as [[c t0] st]. cbn in Hx. subst t0.
  apply Forall_app in Hok as [Hok1 Hok2]. apply Forall_cons_iff in Hok2 as [Hst Hok2'].
  destruct st as [r|]; cbn in Hst.
  - rewrite (next_finished _ _ _ Hst) in Hnext. discriminate.
  - subst t. destruct (next_start c s s' t' Hnext) as (r & Hfin & Hrun).
    exists (i1 ++ (c, t', Some r) :: i2)%list. cbn [fst snd]. split; [|split; [|split]].
    + rewrite map_app in *. exact Hc.
    + rewrite map_app. cbn. now rewrite Hi1, Hi2.
    + apply Forall_app. split; [exact Hok1 | now constructor].
    + exists (order ++ [(c, r)])%list. split; [eapply seq_snoc; [exact Hseq | exact Hrun]|].
      unfold served in *. rewrite flat_map_app in *. cbn in *.
      apply Permutation_trans with ((c, r) :: order);
        [apply Permutation_sym, Permutation_cons_append|].
      rewrite <- Permutation_middle. now constructor.
Qed.

Lemma pool_inv_star (s0 : S) (cs : list call) (p p' : S * list thread) :
  star cstep p p' -> pool_inv s0 cs p -> pool_inv s0 cs p'.
Proof.
  induction 1 as [p|p q r Hpq _ IH]; [auto|].
  intros Hp. apply IH. exact (pool_inv_step s0 cs p q Hp Hpq).
Qed.

(** ** Finished pools *)

Lemma finished_inj (t : thread) (r r' : call_result) : finished t r -> finished t r' -> r = r'.
Proof. unfold finished. intros -> H'. now injection H'. Qed.

(** Calls without effect on the client may be appended to a serial run. *)
Lemma seq_runs_pure (s0 s : S) (order extra : list (call * call_result)) :
  seq_runs s0 order s ->
  Forall (fun cr => forall u, run_call (fst (fst cr)) (snd (fst cr)) u ≈ Ret (u, snd cr)) extra ->
  seq_runs s0 (order ++ extra)%list s.
Proof.
  intros Hs Hx. revert order Hs. induction Hx as [|[c r] extra Hcr _ IH]; intros order Hs.
  - now rewrite app_nil_r.
  - replace (order ++ (c, r) :: extra)%list with ((order ++ [(c, r)]) ++ extra)%list
      by now rewrite <- app_assoc.
    apply IH. eapply seq_snoc; [exact Hs | exact (Hcr s)].
Qed.

(** The calls that returned without a request, with their results. *)
Definition unserved (info : list (call * thread * option call_result)) (rs : list call_result)
    : list (call * call_result) :=
  flat_map (fun xr => match xr with
                      | ((c, _, None), r) => [(c, r)]
                      | _ => []
                      end) (combine info rs).

Lemma served_unserved_perm (info : list (call * thread * option call_result)) (rs : list call_result) :
  Forall2 (fun x r => finished (snd (fst x)) r /\ status_ok x) info rs ->
  Permutation (served info ++ unserved info rs)%list
              (combine (List.map (fun x => fst (fst x)) info) rs).
Proof.
  induction 1 as [|[[c t] st] r info rs [Hf Hst] _ IH]; [constructor|].
  unfold served, unserved in *. simpl in *. destruct st as [r0|]; simpl.
  - rewrite (finished_inj t r0 r Hst Hf). now constructor.
  - rewrite <- Permutation_middle. now constructor.
Qed.

Lemma unserved_pure (info : list (call * thread * option call_result)) (rs : list call_result) :
  Forall2 (fun x r => finished (snd (fst x)) r /\ status_ok x) info rs ->
  Forall (fun cr => forall u, run_call (fst (fst cr)) (snd (fst cr)) u ≈ Ret (u, snd cr))
         (unserved info rs).
Proof.
  induction 1 as [|[[c t] st] r info rs [Hf Hst] _ IH]; [constructor|].
  unfold unserved in *. cbn in *. destruct st as [r0|]; [exact IH|].
  constructor; [|exact IH]. cbn in Hst. subst t. intros u. now apply start_finished_run.
Qed.

Lemma Forall2_info (info : list (call * thread * option call_result)) (ts : list thread)
    (rs : list call_result) :
  List.map (fun x => snd (fst x)) info = ts -> Forall status_ok info -> Forall2 finished ts rs ->
  Forall2 (fun x r => finished (snd (fst x)) r /\ status_ok x) info rs.
Proof.
  intros <-. revert rs. induction info as [|x info IH]; intros rs Hok Hf;
    inversion Hf as [|? ? ? ? Hx Hrest]; subst; [constructor|].
  apply Forall_cons_iff in Hok as [Hs Hok]. constructor; [split; assumption | now apply IH].
Qed.

(** A finished run is a serial run in the order the client served the
    requests. *)
Lemma serial_order_of_run (cs : list call) (s0 s : S) (ts : list thread)
    (rs : list call_result) :
  star cstep (s0, List.map start cs) (s, ts) -> Forall2 finished ts rs ->
  exists order, Permutation order (combine cs rs) /\ seq_runs s0 order s.
Proof.
  intros Hrun Hfin.
  destruct (pool_inv_star s0 cs _ _ Hrun (pool_inv_init s0 cs))
    as (info & Hc & Ht & Hok & order & Hseq & Hperm).
  cbn [fst snd] in *. pose proof (Forall2_info info ts rs Ht Hok Hfin) as H2.
  exists (order ++ unserved info rs)%list. split.
  - eapply Permutation_trans; [apply Permutation_app_tail, Hperm|].
    rewrite <- Hc. now apply served_unserved_perm.
  - apply seq_runs_pure; [exact Hseq | exact (unserved_pure info rs H2)].
Qed.

(** ** Claims *)

(** C9: pipelined calls are serializable: in every interleaving of the
    invocations of [cs] on one client, from client state [s0], in which
    all of them return, the final client state and the results are
    those of running the same calls one after the other in some order
    (the order in which the client served their requests): the calls
    share nothing but the client. *)
Theorem concurrent_calls_serializable (cs : list call) (s0 s : S) (ts : list thread)
    (rs : list call_result) :
  star cstep (s0, List.map start cs) (s, ts) -> Forall2 finished ts rs ->
  exists order, Permutation order (combine cs rs) /\ seq_runs s0 order s.
Proof. exact (serial_order_of_run cs s0 s ts rs). Qed.

End WithClient.
(** ** A race between a read and a delete of the same secret *)

Definition read_call : call := ("vault_read", Some app_args).
Definition delete_call : call := ("vault_delete", Some app_args).
Definition race_calls : list call := [read_call; delete_call].
Definition deleted_store : store := mk_store [] [(app_path, 1%Z)].

(** The client serves the delete first; the read then finds nothing. *)
Lemma race_delete_first :
  exists ts, star cstep (app_store, List.map start race_calls) (deleted_store, ts) /\
    Forall2 finished ts
      [mk_result [text_item (Some ("Error executing vault_read: Status 404"))] (Some true);
       text_result (Some ("Successfully deleted secret at path: " ++ app_path))].
Proof.
  eexists. split.
  - eapply star_step.
    { eapply (cstep_thread _ _ [start read_call] (start delete_call) _ []). cbn. reflexivity. }
    eapply star_step.
    { eapply (cstep_thread _ _ [] (start read_call) _ [_]). cbn. reflexivity. }
    apply star_refl.
  - repeat constructor.
Qed.

Lemma concurrent_calls_serializable_witness :
  exists ts rs, star cstep (app_store, List.map start race_calls) (deleted_store, ts) /\
    Forall2 finished ts rs /\
    exists order, Permutation order (combine race_calls rs) /\ seq_runs app_store order deleted_store.
Proof.
  destruct race_delete_first as (ts & Hrun & Hfin).
  exists ts. eexists. split; [exact Hrun|]. split; [exact Hfin|].
  exact (concurrent_calls_serializable race_calls app_store deleted_store ts _ Hrun Hfin).
Defined.

End Concurrency.
