(* ===== verification/Blocking.v ===== *)
(** * Blocking: a Vault call that never settles

    Section 5 of the specification names a limitation of the handler of
    [src/src/index.ts]: no timeout, cancellation or deadline is
    implemented, so "an adapter call that never resolves blocks that
    invocation indefinitely", while each call "completes independently".
    The [VaultClient] interface of [Dispatcher.v] settles every request.
    This file adds a client that may never settle a request: [settles]
    says whether the request [e] issued in state [s] ever settles, and
    [handle_partial] answers it, or never returns ([ITree.spin]).  The
    theorem: a call of a known tool returns exactly when its request
    settles. *)

From Stdlib Require Import String List Bool.
From ITree Require Import ITree ITreeFacts Events.State Events.StateFacts.
From S2P Require Import Prelude JsValue Dispatcher MemVault Contract.
Import ListNotations.
Import JsValue Dispatcher MemVault Contract.
Import ITree.Basics.Basics.Monads.
Open Scope string_scope.

Module Blocking.

Section Partial.
Context {S : Type} `{VaultClient S}.

(** Whether the client ever settles the request [e] issued in client
    state [s] (false for a Vault server that never answers, a
    connection that hangs). *)
Variable settles : forall R, vaultE R -> S -> bool.

(** The client's answer when it settles; otherwise the invocation waits
    for ever. *)
Definition handle_partial : vaultE ~> stateT S (itree void1) :=
  fun R e s => if settles R e s then Ret (answer e s) else ITree.spin.

(** One [tools/call] against a client that may never settle. *)
Definition run_partial (name : string) (args : option jsprops) (s : S)
    : itree void1 (S * call_result) :=
  interp_state handle_partial (call_tool name args) s.

(** ** The handler against such a client *)

Lemma partial_settled (name : string) (args : option jsprops) (e : vaultE outcome)
    (f : jsval -> thrown + call_result) (s : S) :
  tool_body name args = await_call e (fun v => Ret (f v)) -> settles _ e s = true ->
  run_partial name args s ≈
    Ret (fst (answer e s),
         catch_result name (match snd (answer e s) with
                            | inl err => inl err
                            | inr v => f v
                            end)).
Proof.
  intros Hb Hs. unfold run_partial, call_tool.
  rewrite interp_state_bind, Hb. unfold await_call.
  rewrite interp_state_bind, interp_state_trigger. unfold handle_partial at 1. rewrite Hs.
  rewrite !bind_ret_l. destruct (answer e s) as [s' [err|v]]; cbn;
    rewrite !interp_state_ret, !bind_ret_l, ?interp_state_ret; reflexivity.
Qed.

Lemma partial_blocked (name : string) (args : option jsprops) (e : vaultE outcome)
    (f : jsval -> thrown + call_result) (s : S) :
  tool_body name args = await_call e (fun v => Ret (f v)) -> settles _ e s = false ->
  ~ exists x, run_partial name args s ≈ Ret x.
Proof.
  intros Hb Hs [x Hx]. unfold run_partial, call_tool in Hx.
  rewrite interp_state_bind, Hb in Hx. unfold await_call in Hx.
  rewrite interp_state_bind, interp_state_trigger in Hx. unfold handle_partial at 1 in Hx.
  rewrite Hs in Hx.
  apply eutt_inv_bind_ret in Hx as (a & Ha & _).
  apply eutt_inv_bind_ret in Ha as (b & Hspin & _).
  exact (eutt_spin_Ret_abs _ Hspin).
Qed.

(** The body of a known tool called with an arguments object awaits the
    request of the contract. *)
Lemma known_tool_awaits (k : tool_kind) (ps : jsprops) :
  exists f, tool_body (kind_name k) (Some ps) =
            await_call (request_event (spec_request k ps)) (fun v => Ret (f v)).
Proof. destruct k; eexists; reflexivity. Qed.

(** ** Claims *)

(** C12: no timeout: a call of a known tool with an arguments object
    returns if and only if the client settles the one request the call
    sends; when the client never settles it, the invocation waits for
    ever. *)
Theorem call_returns_iff_settles (n : string) (k : tool_kind) (ps : jsprops) (s : S) :
  tool_kind_of n = Some k ->
  (exists x, run_partial n (Some ps) s ≈ Ret x) <->
  settles _ (request_event (spec_request k ps)) s = true.
Proof.
  intros Hk. apply tool_kind_of_name in Hk as ->.
  destruct (known_tool_awaits k ps) as [f Hb]. split.
  - intros Hr. destruct (settles _ (request_event (spec_request k ps)) s) eqn:E; [reflexivity|].
    exfalso. exact (partial_blocked _ _ _ f s Hb E Hr).
  - intros Hs. eexists. exact (partial_settled _ _ _ f s Hb Hs).
Qed.

End Partial.

(** ** Witnesses *)

(** A client that never settles a delete. *)

Definition hang_deletes (R : Type) (e : vaultE R) (st : store) : bool :=
  match e with VaultDelete _ => false | _ => true end.

Lemma call_returns_iff_settles_witness :
  tool_kind_of "vault_delete" = Some KDelete /\
  ((exists x, run_partial hang_deletes "vault_delete" (Some app_args) app_store ≈ Ret x) <->
   hang_deletes _ (request_event (spec_request KDelete app_args)) app_store = true).
Proof.
  split; [reflexivity|].
  exact (call_returns_iff_settles hang_deletes "vault_delete" KDelete app_args app_store eq_refl).
Defined.

End Blocking.
