(* ===== verification/Config.v ===== *)
(** * Config: process configuration (index.ts lines 12-27)

    At load time the module reads [process.env.VAULT_ADDR], falling back
    to [http://127.0.0.1:8200] through [||], reads
    [process.env.VAULT_TOKEN], and when the token is falsy prints an
    error and calls [process.exit(1)]; otherwise it builds the Vault
    client with [apiVersion "v1"], the endpoint and the token.

    The environment is a finite map from names to strings (stdpp's
    [gmap]); JavaScript's falsy strings are [undefined] (the variable is
    unset) and the empty string. *)

From Stdlib Require Import String ZArith List.
From stdpp Require Import base gmap strings.
From S2P Require Import Prelude.
Import ListNotations.
Open Scope string_scope.

Module Config.

Abbreviation env := (gmap string string).

Definition default_addr : string := "http://127.0.0.1:8200".

Definition token_required_message : string :=
  "Error: VAULT_TOKEN environment variable is required".

(** [v || d] on an environment variable: the empty string and an unset
    variable are falsy. *)
Definition or_default (v : option string) (d : string) : string :=
  match v with
  | Some s => if String.eqb s "" then d else s
  | None => d
  end.

(** [const VAULT_ADDR = process.env.VAULT_ADDR || "http://127.0.0.1:8200"] *)
Definition VAULT_ADDR (e : env) : string := or_default (e !! "VAULT_ADDR") default_addr.

(** [const VAULT_TOKEN = process.env.VAULT_TOKEN] *)
Definition VAULT_TOKEN (e : env) : option string := e !! "VAULT_TOKEN".

(** [!VAULT_TOKEN] *)
Definition falsy (v : option string) : bool :=
  match v with
  | Some s => String.eqb s ""
  | None => true
  end.

(** The options object passed to [vault(...)] (lines 23-27). *)
Record client_options : Type := mk_options {
  apiVersion : string;
  endpoint : string;
  token : string
}.

(** What the module's top level does with the environment: exit with a
    status and the lines written to stderr, or go on with the client's
    options. *)
Inductive startup : Type :=
| Exit (code : Z) (stderr : list string)
| Proceed (opts : client_options).

(** Lines 13-27. *)
Definition load_config (e : env) : startup :=
  let addr := VAULT_ADDR e in
  match VAULT_TOKEN e with
  | Some t => if falsy (Some t) then Exit 1 [token_required_message]
              else Proceed (mk_options "v1" addr t)
  | None => Exit 1 [token_required_message]
  end.

(** ** Lemmas *)

Lemma load_config_Proceed_token (e : env) (opts : client_options) :
  load_config e = Proceed opts -> falsy (VAULT_TOKEN e) = false.
Proof.
  unfold load_config. destruct (VAULT_TOKEN e) as [t|]; [|discriminate].
  simpl. now destruct (String.eqb t "").
Qed.

Lemma load_config_cases (e : env) :
  (load_config e = Exit 1 [token_required_message] /\ falsy (VAULT_TOKEN e) = true) \/
  (exists opts, load_config e = Proceed opts /\ falsy (VAULT_TOKEN e) = false).
Proof.
  unfold load_config. destruct (VAULT_TOKEN e) as [t|]; simpl; [|now left].
  destruct (String.eqb t ""); [now left | right; eauto].
Qed.

(** ** Properties *)

(** C21: the module exits with status 1 and the token message exactly when
    [VAULT_TOKEN] is unset or empty. *)
Theorem load_config_exit_iff (e : env) :
  load_config e = Exit 1 [token_required_message] <-> falsy (VAULT_TOKEN e) = true.
Proof.
  destruct (load_config_cases e) as [[-> ->] | (opts & -> & ->)];
    split; congruence.
Qed.

(** C22: when it proceeds, the client is built for API [v1] with the
    token of the environment and the endpoint [VAULT_ADDR], or the
    default address when [VAULT_ADDR] is unset or empty. *)
Theorem load_config_proceed (e : env) (opts : client_options) :
  load_config e = Proceed opts ->
  apiVersion opts = "v1" /\
  Some (token opts) = e !! "VAULT_TOKEN" /\ token opts <> "" /\
  endpoint opts = (match e !! "VAULT_ADDR" with
                   | Some a => if String.eqb a "" then default_addr else a
                   | None => default_addr
                   end).
Proof.
  unfold load_config, VAULT_TOKEN, VAULT_ADDR, or_default.
  destruct (e !! "VAULT_TOKEN") as [t|]; [|discriminate]. simpl.
  destruct (String.eqb_spec t "") as [_|Ht]; [discriminate|].
  intros H. injection H as <-. simpl. auto.
Qed.

(** ** Witnesses *)

(** The empty environment. *)
Definition empty_env : env := ∅.

(** An environment with a token and no [VAULT_ADDR]. *)
Definition sample_env : env := <["VAULT_TOKEN" := "hvs.sample"]> ∅.

Lemma load_config_proceed_witness :
  load_config sample_env = Proceed (mk_options "v1" default_addr "hvs.sample") /\
  apiVersion (mk_options "v1" default_addr "hvs.sample") = "v1" /\
  Some (token (mk_options "v1" default_addr "hvs.sample")) = sample_env !! "VAULT_TOKEN" /\
  token (mk_options "v1" default_addr "hvs.sample") <> "" /\
  endpoint (mk_options "v1" default_addr "hvs.sample") =
    (match sample_env !! "VAULT_ADDR" with
     | Some a => if String.eqb a "" then default_addr else a
     | None => default_addr
     end).
Proof.
  assert (H : load_config sample_env = Proceed (mk_options "v1" default_addr "hvs.sample"))
    by reflexivity.
  split; [exact H | exact (load_config_proceed sample_env _ H)].
Defined.

End Config.
