(* ===== verification/Server.v ===== *)
(** * Server: the process lifecycle (index.ts lines 12-20 and 93-199)

    Loading the module runs, in order: the configuration check (exit 1
    when the token is missing), the construction of the client and of
    the MCP [Server], the registration of the [tools/list] handler, then
    of the [tools/call] handler, and the call of [main()], which awaits
    [server.connect(transport)] on stdio and then logs
    [Vault MCP Server running on stdio]; a failed connection reaches
    [main().catch], which logs [Fatal error:] and exits with 1.  Once
    running, the server answers requests, each with its handler.

    This is modelled as a step relation [step] on a process state
    [proc]: the phase, the environment, the stderr lines, the client's
    options, the registered methods, the state of the Vault client and
    the responses sent.  A [tools/call] step takes the result of the
    dispatcher run to completion against the client ([run_call]).  The
    invariant [proc_inv] holds in every state reachable from the start
    and yields the safety theorems.  The transport delivers requests
    after the connection's continuation has run (its data events come
    after the promise jobs), so requests are served in the [Running]
    phase. *)

From Stdlib Require Import String ZArith List.
From ITree Require Import ITree ITreeFacts Events.State Events.StateFacts.
From S2P Require Import Prelude JsValue Dispatcher MemVault Tools Config.
Import ListNotations.
Import JsValue Dispatcher MemVault Tools Config.
Open Scope string_scope.

Module Server.

Inductive phase : Type :=
| Boot                (* module start *)
| Configured          (* token present, client and server built *)
| ListRegistered      (* tools/list handler registered *)
| Registered          (* tools/call handler registered, main() called *)
| Connected           (* server.connect(transport) resolved *)
| Running             (* the start message is logged; serving *)
| Exited (code : Z).  (* process.exit(code) *)

Inductive response : Type :=
| RespTools (r : list_tools_result)
| RespCall (r : call_result).

Definition running_message : string := "Vault MCP Server running on stdio".

Section Lifecycle.
Context {S : Type} `{VaultClient S}.

Record proc : Type := mk_proc {
  ph : phase;
  penv : env;
  stderr : list string;
  options : option client_options;
  methods : list string;
  backend : S;
  responses : list response
}.

Definition init (e : env) (s0 : S) : proc := mk_proc Boot e [] None [] s0 [].

Inductive step : proc -> proc -> Prop :=
(* lines 16-20 *)
| step_exit p code msgs :
    ph p = Boot -> load_config (penv p) = Exit code msgs ->
    step p (mk_proc (Exited code) (penv p) (stderr p ++ msgs)%list (options p)
                    (methods p) (backend p) (responses p))
(* lines 23-27 and 94-104 *)
| step_configure p opts :
    ph p = Boot -> load_config (penv p) = Proceed opts ->
    step p (mk_proc Configured (penv p) (stderr p) (Some opts)
                    (methods p) (backend p) (responses p))
(* lines 107-111 *)
| step_register_list p :
    ph p = Configured ->
    step p (mk_proc ListRegistered (penv p) (stderr p) (options p)
                    (methods p ++ ["tools/list"])%list (backend p) (responses p))
(* lines 114-187, then main() at line 196 *)
| step_register_call p :
    ph p = ListRegistered ->
    step p (mk_proc Registered (penv p) (stderr p) (options p)
                    (methods p ++ ["tools/call"])%list (backend p) (responses p))
(* line 192 resolves *)
| step_connect p :
    ph p = Registered ->
    step p (mk_proc Connected (penv p) (stderr p) (options p)
                    (methods p) (backend p) (responses p))
(* line 192 rejects: lines 196-199 *)
| step_connect_fail p (err : string) :
    ph p = Registered ->
    step p (mk_proc (Exited 1) (penv p) (stderr p ++ [String.append "Fatal error: " err])%list
                    (options p) (methods p) (backend p) (responses p))
(* line 193 *)
| step_announce p :
    ph p = Connected ->
    step p (mk_proc Running (penv p) (stderr p ++ [running_message])%list (options p)
                    (methods p) (backend p) (responses p))
(* a tools/list request *)
| step_list p :
    ph p = Running -> In "tools/list" (methods p) ->
    step p (mk_proc Running (penv p) (stderr p) (options p) (methods p) (backend p)
                    (responses p ++ [RespTools list_tools])%list)
(* a tools/call request, run to its result against the client *)
| step_call p n args s' r :
    ph p = Running -> In "tools/call" (methods p) ->
    run_call n args (backend p) ≈ Ret (s', r) ->
    step p (mk_proc Running (penv p) (stderr p) (options p) (methods p) s'
                    (responses p ++ [RespCall r])%list).

Inductive reachable (e : env) (s0 : S) : proc -> Prop :=
| reach_init : reachable e s0 (init e s0)
| reach_step p q : reachable e s0 p -> step p q -> reachable e s0 q.

(** ** The invariant *)

Definition both_methods : list string := ["tools/list"; "tools/call"].

(** The configuration succeeded and the client was built with it. *)
Definition configured (e : env) (p : proc) : Prop :=
  exists opts, options p = Some opts /\ load_config e = Proceed opts.

(** What holds in each phase of a reachable state. *)
Definition proc_inv (e : env) (p : proc) : Prop :=
  penv p = e /\
  (forall r, In (RespTools r) (responses p) -> r = list_tools) /\
  (responses p <> [] -> ph p = Running) /\
  match ph p with
  | Boot => stderr p = [] /\ options p = None /\ methods p = []
  | Exited c =>
      c = 1%Z /\
      ((load_config e = Exit 1 [token_required_message] /\
        stderr p = [token_required_message] /\ methods p = [])
       \/ (configured e p /\ exists err, stderr p = [String.append "Fatal error: " err]))
  | Configured => stderr p = [] /\ methods p = [] /\ configured e p
  | ListRegistered => stderr p = [] /\ methods p = ["tools/list"] /\ configured e p
  | Registered | Connected => stderr p = [] /\ methods p = both_methods /\ configured e p
  | Running => stderr p = [running_message] /\ methods p = both_methods /\ configured e p
  end.

Lemma proc_inv_init e s0 : proc_inv e (init e s0).
Proof. unfold proc_inv, init; simpl. repeat split; try contradiction; congruence. Qed.

(** A phase other than [Running] has sent nothing. *)
Ltac no_response :=
  let Hn := fresh in
  intros Hn;
  match goal with H : _ <> [] -> _ = Running |- _ => specialize (H Hn); congruence end.

Lemma list_resp_app (l : list response) x :
  (forall r, In (RespTools r) l -> r = list_tools) ->
  (forall r, x = RespTools r -> r = list_tools) ->
  forall r, In (RespTools r) (l ++ [x])%list -> r = list_tools.
Proof.
  intros Hl Hx r Hr. apply in_app_or in Hr as [Hr|[Hr|[]]]; auto.
Qed.

Lemma proc_inv_step e p q : proc_inv e p -> step p q -> proc_inv e q.
Proof.
  intros (Henv & Hlist & Hresp & Hph) Hstep.
  destruct Hstep as [p code msgs Hp Hc | p opts Hp Hc | p Hp | p Hp | p Hp | p err Hp
                    | p Hp | p Hp Hm | p n args s' r Hp Hm Hr];
    unfold proc_inv, configured in *;
    cbn [ph penv stderr options methods backend responses] in *;
    rewrite Hp in *; subst e; (split; [reflexivity|]).
  - destruct Hph as (Herr & _ & Hmeth).
    destruct (load_config_cases (penv p)) as [[He _] | (opts & He & _)];
      rewrite Hc in He; [|discriminate]. injection He as -> ->.
    split; [exact Hlist|]. split; [no_response|]. split; [reflexivity|].
    left. rewrite Herr. auto.
  - destruct Hph as (Herr & _ & Hmeth).
    split; [exact Hlist|]. split; [no_response|]. eauto.
  - destruct Hph as (Herr & Hmeth & Hconf).
    split; [exact Hlist|]. split; [no_response|]. now rewrite Hmeth.
  - destruct Hph as (Herr & Hmeth & Hconf).
    split; [exact Hlist|]. split; [no_response|]. now rewrite Hmeth.
  - split; [exact Hlist|]. split; [no_response|]. exact Hph.
  - destruct Hph as (Herr & Hmeth & Hconf).
    split; [exact Hlist|]. split; [no_response|]. split; [reflexivity|].
    right. split; [exact Hconf|]. exists err. now rewrite Herr.
  - destruct Hph as (Herr & Hmeth & Hconf).
    split; [exact Hlist|]. split; [no_response|]. now rewrite Herr.
  - split; [apply list_resp_app; [exact Hlist | intros ? H0; inversion H0; auto]|].
    split; [congruence|]. exact Hph.
  - split; [apply list_resp_app; [exact Hlist | intros ? H0; inversion H0; auto]|].
    split; [congruence|]. exact Hph.
Qed.

Lemma reachable_inv e s0 p : reachable e s0 p -> proc_inv e p.
Proof.
  induction 1 as [|p q _ IH Hs]; [apply proc_inv_init | eapply proc_inv_step; eauto].
Qed.

(** The state after a successful start. *)
Definition running_state (e : env) (s0 : S) (opts : client_options) : proc :=
  mk_proc Running e [running_message] (Some opts) both_methods s0 [].

Lemma reach_running (e : env) (s0 : S) (opts : client_options) :
  load_config e = Proceed opts -> reachable e s0 (running_state e s0 opts).
Proof.
  intros Hc.
  eapply reach_step; [eapply reach_step; [eapply reach_step; [eapply reach_step;
    [eapply reach_step; [apply reach_init | ] | ] | ] | ] | ].
  - apply step_configure; [reflexivity | exact Hc].
  - apply step_register_list; reflexivity.
  - apply step_register_call; reflexivity.
  - apply step_connect; reflexivity.
  - apply step_announce; reflexivity.
Qed.

(** ** Properties *)

(** Nothing is answered before the server runs. *)
Lemma no_response_before_running e p : proc_inv e p -> ph p <> Running -> responses p = [].
Proof.
  intros (_ & _ & Hresp & _) Hn. destruct (responses p); [reflexivity|].
  exfalso. apply Hn, Hresp. discriminate.
Qed.

Lemma configured_token e p : configured e p -> falsy (VAULT_TOKEN e) = false.
Proof. intros (opts & _ & Hc). eapply load_config_Proceed_token; eauto. Qed.

(** C16: a response is sent only by a process whose [VAULT_TOKEN] is set
    and non-empty, and only after the start message was logged. *)
Theorem served_only_with_token (e : env) (s0 : S) (p : proc) :
  reachable e s0 p -> responses p <> [] ->
  falsy (VAULT_TOKEN e) = false /\ In running_message (stderr p).
Proof.
  intros Hr Hn. destruct (reachable_inv _ _ _ Hr) as (_ & _ & Hresp & Hph).
  rewrite (Hresp Hn) in Hph. destruct Hph as (Hmsg & _ & Hconf).
  split; [eapply configured_token; eauto | rewrite Hmsg; now left].
Qed.

(** C17: without a token the process never registers a handler nor
    answers: it is at the start or has exited with status 1 after
    printing exactly the token message. *)
Theorem missing_token_exits (e : env) (s0 : S) (p : proc) :
  falsy (VAULT_TOKEN e) = true -> reachable e s0 p ->
  responses p = [] /\ methods p = [] /\
  (ph p = Boot \/ (ph p = Exited 1 /\ stderr p = [token_required_message])).
Proof.
  intros Ht Hr. pose proof (reachable_inv _ _ _ Hr) as Hinv.
  pose proof (no_response_before_running _ _ Hinv) as Hr0.
  destruct Hinv as (_ & _ & _ & Hph).
  assert (Hnc : ~ configured e p) by (intros Hc; apply configured_token in Hc; congruence).
  destruct (ph p) as [| | | | | |c]; try (exfalso; apply Hnc; tauto).
  - destruct Hph as (_ & _ & Hm). repeat split; try (apply Hr0; discriminate); auto.
  - destruct Hph as (-> & [(_ & Hs & Hm) | [Hc _]]); [|contradiction].
    repeat split; try (apply Hr0; discriminate); auto.
Qed.


(** C19: with a token and a transport that connects, the process reaches
    the running phase with both handlers registered and exactly the
    start message on stderr. *)
Theorem startup_reaches_running (e : env) (s0 : S) :
  falsy (VAULT_TOKEN e) = false ->
  exists p, reachable e s0 p /\ ph p = Running /\
            stderr p = [running_message] /\ methods p = both_methods.
Proof.
  intros Ht. destruct (load_config_cases e) as [[_ Hf] | (opts & Hc & _)]; [congruence|].
  exists (running_state e s0 opts). split; [now apply reach_running|].
  repeat split; reflexivity.
Qed.

(** C20: the process writes to stderr only at startup and at exit: in
    every reachable state stderr is empty before the start message,
    exactly that message while running, and on exit exactly one line,
    the token message or [Fatal error: <err>], with status 1 and no
    response ever sent. *)
Theorem stderr_by_phase (e : env) (s0 : S) (p : proc) :
  reachable e s0 p ->
  match ph p with
  | Exited c =>
      c = 1%Z /\ responses p = [] /\
      (stderr p = [token_required_message] \/
       exists err, stderr p = [String.append "Fatal error: " err])
  | Running => stderr p = [running_message]
  | _ => stderr p = []
  end.
Proof.
  intros Hr. pose proof (reachable_inv _ _ _ Hr) as Hinv.
  pose proof (no_response_before_running _ _ Hinv) as Hr0.
  destruct Hinv as (_ & _ & _ & Hph).
  destruct (ph p); try (destruct Hph as [Herr _]; exact Herr).
  destruct Hph as (-> & [(_ & Hs & _) | (_ & err & Hs)]);
    (split; [reflexivity | split; [apply Hr0; discriminate|]]); eauto.
Qed.

End Lifecycle.

(** ** Witnesses, against the scripted client *)

(** The scripted client with nothing left to answer. *)
Definition no_script : list outcome := [].

Definition sample_opts : client_options := mk_options "v1" default_addr "hvs.sample".

Definition served_state : @proc (list outcome) :=
  mk_proc Running sample_env [running_message] (Some sample_opts) both_methods no_script
          [RespTools list_tools].

Lemma reach_served : reachable sample_env no_script served_state.
Proof.
  eapply reach_step; [apply (reach_running sample_env no_script sample_opts); reflexivity|].
  apply (step_list (running_state sample_env no_script sample_opts)); reflexivity || (simpl; tauto).
Qed.

Lemma served_only_with_token_witness :
  reachable sample_env no_script served_state /\ responses served_state <> [] /\
  falsy (VAULT_TOKEN sample_env) = false /\ In running_message (stderr served_state).
Proof.
  assert (Hn : responses served_state <> []) by discriminate.
  split; [exact reach_served|]. split; [exact Hn|].
  exact (served_only_with_token sample_env no_script served_state reach_served Hn).
Defined.

Lemma missing_token_exits_witness :
  falsy (VAULT_TOKEN empty_env) = true /\ reachable empty_env no_script (init empty_env no_script) /\
  responses (init empty_env no_script) = [] /\ methods (init empty_env no_script) = [] /\
  (ph (init empty_env no_script) = Boot \/ (ph (init empty_env no_script) = Exited 1 /\ stderr (init empty_env no_script) = [token_required_message])).
Proof.
  assert (Ht : falsy (VAULT_TOKEN empty_env) = true) by reflexivity.
  assert (Hr : reachable empty_env no_script (init empty_env no_script)) by apply reach_init.
  split; [exact Ht|]. split; [exact Hr|].
  exact (missing_token_exits empty_env no_script (init empty_env no_script) Ht Hr).
Defined.


Lemma startup_reaches_running_witness :
  falsy (VAULT_TOKEN sample_env) = false /\
  exists p, reachable sample_env no_script p /\ ph p = Running /\
            stderr p = [running_message] /\ methods p = both_methods.
Proof.
  assert (Ht : falsy (VAULT_TOKEN sample_env) = false) by reflexivity.
  split; [exact Ht | exact (startup_reaches_running sample_env no_script Ht)].
Defined.

Lemma stderr_by_phase_witness :
  reachable sample_env no_script served_state /\ stderr served_state = [running_message].
Proof.
  split; [exact reach_served|].
  exact (stderr_by_phase sample_env no_script served_state reach_served).
Defined.

End Server.
